(** * plantuml-mcp-app: the diagram synchronisation and interaction engine

  A shallow embedding of the render scheduler ([App.tsx]), the rendering
  engine ([engine/render.ts]), the change log ([sync/changeLog.ts]), the
  sync layer ([sync/syncLayer.ts]) and the viewport of [DiagramView.tsx],
  followed by the properties the specification states about them.

  Conventions of the embedding.
  - A JavaScript string is a sequence of code units.  It is modelled as a
    [string] whose characters are the code units 0..255; the only literal
    of the sources outside that range (the dash of the auto-fix message)
    is written in its UTF-8 encoding, which changes nothing but the text
    of that constant.
  - JavaScript numbers of the viewport are modelled as rationals [Q].
    Arithmetic is exact here where the code rounds to the nearest double: an
    expression such as [(W - 48) / w] stands for the value the code
    computes for it, and the properties proved about numbers only use
    comparisons, [Math.min] and [Math.max] of such values.
  - Mutable refs, React state and the host channel are fields of one
    explicit state record; an [async] function is split at its [await]
    into the part that runs at the call and the continuation that runs
    when the promise settles.
  - Time is a virtual clock counting milliseconds; [setTimeout] and
    [setInterval] are pending deadlines fired by [tick]. *)

From Stdlib Require Import ZArith QArith Qminmax Ascii String Bool Lia.
From Stdlib Require Import Numbers.DecimalString.
From Stdlib Require Import Qabs.
From stdpp Require Import base list strings gmap.

(** ** JavaScript string primitives used by the sources *)

Module Js.

(** The line feed, written [\n] in the sources, and the double quote. *)
Definition nl : string := String "010"%char "".
Definition dq : string := String "034"%char "".

(** [WhiteSpace] and [LineTerminator] code units below 256: what
    [String.prototype.trim], [trimEnd] and the regular expression class
    [\s] all recognise. *)
Definition isWhiteSpace (c : ascii) : bool :=
  let n := nat_of_ascii c in
  (n =? 9) || (n =? 10) || (n =? 11) || (n =? 12) || (n =? 13)
  || (n =? 32) || (n =? 160).

(** The class [\w] of a regular expression without the [u] flag. *)
Definition isWordChar (c : ascii) : bool :=
  let n := nat_of_ascii c in
  ((65 <=? n) && (n <=? 90)) || ((97 <=? n) && (n <=? 122))
  || ((48 <=? n) && (n <=? 57)) || (n =? 95).

(** Canonicalisation of a code unit under the [i] flag, restricted to what
    can match an ASCII pattern character: ASCII letters are folded, every
    other code unit is kept. *)
Definition canonicalize (c : ascii) : ascii :=
  let n := nat_of_ascii c in
  if (97 <=? n) && (n <=? 122) then ascii_of_nat (n - 32) else c.

Definition ciEq (a b : ascii) : bool :=
  Ascii.eqb (canonicalize a) (canonicalize b).

Fixpoint allWhite (s : string) : bool :=
  match s with
  | "" => true
  | String c s' => isWhiteSpace c && allWhite s'
  end.

Fixpoint trimStart (s : string) : string :=
  match s with
  | "" => ""
  | String c s' => if isWhiteSpace c then trimStart s' else s
  end.

Fixpoint trimEnd (s : string) : string :=
  match s with
  | "" => ""
  | String c s' =>
      match trimEnd s' with
      | "" => if isWhiteSpace c then "" else String c ""
      | t => String c t
      end
  end.

Definition trim (s : string) : string := trimEnd (trimStart s).

(** Truthiness of a string: the empty string is the only falsy one. *)
Definition truthy (s : string) : bool := negb (String.eqb s "").

(** [s.includes(pat)]. *)
Fixpoint includes (s pat : string) : bool :=
  String.prefix pat s
  || match s with
     | "" => false
     | String _ s' => includes s' pat
     end.

(** [s.slice(0, n)]: the first [n] code units. *)
Fixpoint sliceTo (n : nat) (s : string) : string :=
  match n, s with
  | S n', String c s' => String c (sliceTo n' s')
  | _, _ => ""
  end.

(** [parts.join(sep)]. *)
Definition join (sep : string) (parts : list string) : string :=
  String.concat sep parts.

(** Template interpolation of a non-negative integer. *)
Definition showNat (n : nat) : string :=
  NilEmpty.string_of_uint (Nat.to_uint n).

(** Case-insensitive match of the literal [p] at the start of [s]; the
    rest of [s] after the match. *)
Fixpoint ciPrefix (p s : string) : option string :=
  match p with
  | "" => Some s
  | String a p' =>
      match s with
      | String b s' => if ciEq a b then ciPrefix p' s' else None
      | "" => None
      end
  end.

(** [re.test(s)] for an unanchored expression: the first position, from
    the left, at which the expression matches. *)
Fixpoint search {A} (matchAt : string → option A) (s : string) : option A :=
  match matchAt s with
  | Some r => Some r
  | None =>
      match s with
      | "" => None
      | String _ s' => search matchAt s'
      end
  end.

(** The longest run of word characters at the start of [s] (a greedy
    [\w*]). *)
Fixpoint takeWord (s : string) : string :=
  match s with
  | String c s' => if isWordChar c then String c (takeWord s') else ""
  | "" => ""
  end.

End Js.

(** ** engine/render.ts *)

Module Render.

(** How a promise settles. *)
Inductive Settled : Type :=
| Fulfilled (value : string)
| Rejected (message : string).

(** What [fetch] resolves to: [response.ok], [status], [statusText] and
    the outcome of [response.text()]. *)
Record Response : Type := mkResponse {
  ok : bool;
  status : nat;
  statusText : string;
  text : Settled
}.

Inductive FetchOutcome : Type :=
| Responded (r : Response)
| NetworkError (message : string).

Definition PLANTUML_SERVER : string := "https://www.plantuml.com/plantuml".

Section Backend.
(** [plantumlEncoder.encode] and the network are external. *)
Variable encode : string → string.
Variable fetch : string → FetchOutcome.

(** [renderPlantUml(code)]: the URLs requested from the backend, in
    order, and how the returned promise settles. *)
Definition renderPlantUml (code : string) : list string * Settled :=
  if negb (Js.truthy (Js.trim code)) then
    ([], Rejected "Empty PlantUML code")
  else
    let encoded := encode code in
    let url := PLANTUML_SERVER +:+ "/svg/" +:+ encoded in
    match fetch url with
    | NetworkError m => ([url], Rejected m)
    | Responded response =>
        if negb (ok response) then
          ([url],
           Rejected ("PlantUML server error: "
                     +:+ Js.showNat (status response) +:+ " "
                     +:+ statusText response))
        else ([url], text response)
    end.
(** [getPngUrl(code)] and [getSvgUrl(code)], for export. *)
Definition getPngUrl (code : string) : string :=
  PLANTUML_SERVER +:+ "/png/" +:+ encode code.

Definition getSvgUrl (code : string) : string :=
  PLANTUML_SERVER +:+ "/svg/" +:+ encode code.

End Backend.

(** [isSvgError(svg)]: the content heuristic. *)
Definition isSvgError (svg : string) : bool :=
  Js.includes svg "Syntax Error"
  || Js.includes svg "ErrorURLDecoder"
  || Js.includes svg "[From string (line"
  || Js.includes svg "syntax is deprecated".

End Render.

(** ** sync/changeLog.ts *)

Module ChangeLog.

Inductive Change : Type :=
| Edit (summary : string)
| TypeChange (oldType newType : string).

(** The private array [changes] of the class. *)
Abbreviation t := (list Change).

Definition empty : t := [].

Definition add (change : Change) (changes : t) : t :=
  match change, last changes with
  | Edit _, Some (Edit _) =>
      <[length changes - 1 := change]> changes
  | TypeChange _ newType, Some (TypeChange oldType _) =>
      <[length changes - 1 := TypeChange oldType newType]> changes
  | _, _ => changes ++ [change]
  end.

Definition serializeEntry (i : nat) (c : Change) : string :=
  let num := Js.showNat (i + 1) +:+ "." in
  match c with
  | Edit summary => num +:+ " Edited diagram code: " +:+ summary
  | TypeChange oldType newType =>
      num +:+ " Changed diagram type from " +:+ oldType
          +:+ " to " +:+ newType
  end.

Definition serialize (changes : t) : string :=
  if length changes =? 0 then ""
  else Js.join Js.nl (imap serializeEntry changes).

Definition clear (changes : t) : t := [].

Definition count (changes : t) : nat := length changes.

Definition isEmpty (changes : t) : bool := length changes =? 0.

(** Two entries carry the same tag. *)
Definition sameTag (a b : Change) : bool :=
  match a, b with
  | Edit _, Edit _ => true
  | TypeChange _ _, TypeChange _ _ => true
  | _, _ => false
  end.

(** No two neighbours of the log carry the same tag. *)
Fixpoint coalesced (changes : t) : bool :=
  match changes with
  | a :: (b :: _) as rest => negb (sameTag a b) && coalesced rest
  | _ => true
  end.

(** [add] called once for each entry of [cs], in order. *)
Definition addAll (cs : list Change) (changes : t) : t :=
  fold_left (fun log c => add c log) cs changes.

End ChangeLog.

(** ** sync/syncLayer.ts *)

Module SyncLayer.

(** A call either returns or throws. *)
Inductive Outcome (A : Type) : Type :=
| Returned (a : A)
| Thrown (err : string).
Arguments Returned {A} a.
Arguments Thrown {A} err.

(** The host application handle.  [sendMessage text] tells whether the call
    throws ([Some err]) or returns ([None]) in the host at hand. *)
Record McpApp : Type := mkMcpApp {
  sendMessage : string → option string
}.

(** What [sendToAgent] acts on: the [ChangeLog] object it is handed by
    reference, and the calls made on the agent channel. *)
Record World : Type := mkWorld {
  changeLog : ChangeLog.t;
  sendMessageCalls : list string
}.

(** Computations that read and write the world and may throw. *)
Definition M (A : Type) : Type := World → Outcome A * World.

Definition ret {A} (a : A) : M A := fun w => (Returned a, w).

Definition bind {A B} (m : M A) (k : A → M B) : M B :=
  fun w =>
    match m w with
    | (Returned a, w') => k a w'
    | (Thrown e, w') => (Thrown e, w')
    end.

(** [try { body } catch { handler }]. *)
Definition tryCatch {A} (body : M A) (handler : string → M A) : M A :=
  fun w =>
    match body w with
    | (Returned a, w') => (Returned a, w')
    | (Thrown e, w') => handler e w'
    end.

#[export] Instance M_ret : MRet M := @ret.
#[export] Instance M_bind : MBind M := fun A B k m => bind m k.

(** [changeLog.serialize()] and [changeLog.clear()] on the shared object. *)
Definition changeLog_serialize : M string :=
  fun w => (Returned (ChangeLog.serialize (changeLog w)), w).

Definition changeLog_clear : M unit :=
  fun w =>
    (Returned tt, mkWorld (ChangeLog.clear (changeLog w)) (sendMessageCalls w)).

(** [app.sendMessage({ role: "user", content: [{ type: "text", text }] })]. *)
Definition app_sendMessage (app : McpApp) (text : string) : M unit :=
  fun w =>
    let w' := mkWorld (changeLog w) (sendMessageCalls w ++ [text]) in
    match sendMessage app text with
    | Some err => (Thrown err, w')
    | None => (Returned tt, w')
    end.

Definition sendToAgent (app : option McpApp) (plantUmlCode : string)
    (selectedElements : list string) (diagramType : string) : M unit :=
  match app with
  | None => ret tt
  | Some app =>
      delta ← changeLog_serialize;
      let selectionText :=
        if 0 <? length selectedElements
        then Js.join ", " selectedElements else "none" in
      let parts :=
        (if Js.truthy delta then ["User edited the diagram:"; delta] else [])
        ++ ["Currently selected: " +:+ selectionText;
            "";
            "Full PlantUML code (" +:+ diagramType +:+ "):";
            plantUmlCode] in
      let text := Js.join Js.nl parts in
      tryCatch (app_sendMessage app text) (fun _ => ret tt);;
      changeLog_clear
  end.

(** The sources hold later revisions of [sendToAgent], on the labelled
    items of [DiagramView.tsx]; they differ in the text they build and end
    the same way.  This is the last one. *)
Record SelectedItem : Type := mkItem { id : string; label : string }.

Definition formatSelection (items : list SelectedItem) : string :=
  if length items =? 0 then "none" else Js.join ", " (label <$> items).

Definition sendToAgent_items (app : option McpApp) (plantUmlCode : string)
    (selectedItems : list SelectedItem) (diagramType : string) : M unit :=
  match app with
  | None => ret tt
  | Some app =>
      delta ← changeLog_serialize;
      let parts :=
        (if Js.truthy delta then ["User edited the diagram:"; delta] else [])
        ++ (if 0 <? length selectedItems then
              ["User selected these elements in the diagram: "
               +:+ formatSelection selectedItems;
               "When the user refers to " +:+ Js.dq +:+ "these" +:+ Js.dq
               +:+ ", " +:+ Js.dq +:+ "selected" +:+ Js.dq +:+ ", or "
               +:+ Js.dq +:+ "this" +:+ Js.dq
               +:+ " without naming specific elements, they mean the above selected elements."]
            else [])
        ++ ["";
            "Full PlantUML code (" +:+ diagramType +:+ "):";
            plantUmlCode] in
      let text := Js.join Js.nl parts in
      tryCatch (app_sendMessage app text) (fun _ => ret tt);;
      changeLog_clear
  end.

(** [silentSync(app, plantUmlCode, selectedElements, diagramType)].  The
    handle is the same object as for [sendToAgent]; here only its
    [updateModelContext] matters, which throws ([Some err]) or returns.
    The function acts on the list of the texts handed to it. *)
Record ContextApp : Type := mkContextApp {
  updateModelContext : string → option string
}.

Definition silentSyncText (plantUmlCode : string)
    (selectedElements : list string) (diagramType : string) : string :=
  let selectionText :=
    if 0 <? length selectedElements
    then Js.join ", " selectedElements else "none" in
  Js.join Js.nl
    ["Current diagram type: " +:+ diagramType;
     "Selected elements: " +:+ selectionText;
     "";
     "PlantUML code:";
     plantUmlCode].

Definition silentSync (app : option ContextApp) (plantUmlCode : string)
    (selectedElements : list string) (diagramType : string)
    (calls : list string) : Outcome unit * list string :=
  match app with
  | None => (Returned tt, calls)
  | Some app =>
      let text := silentSyncText plantUmlCode selectedElements diagramType in
      let attempt :=
        match updateModelContext app text with
        | Some err => (Thrown err, calls ++ [text])
        | None => (Returned tt, calls ++ [text])
        end in
      match attempt with
      | (Returned a, calls') => (Returned a, calls')
      | (Thrown _, calls') => (Returned tt, calls')
      end
  end.

End SyncLayer.

(** ** components/DiagramView.tsx: the viewport *)

Module DiagramView.

Local Open Scope Q_scope.

Record Point : Type := mkPoint { x : Q; y : Q }.

(** [svgSize.current]. *)
Record Size : Type := mkSize { w : Q; h : Q }.

(** The part of [getBoundingClientRect()] the viewport reads. *)
Record DOMRect : Type := mkRect { left : Q; top : Q; width : Q; height : Q }.

(** The React state [scale] and [pan]. *)
Record View : Type := mkView { scale : Q; pan : Point }.

Definition padding : Q := 48.

(** [fitToView()]; [wrapper] is [wrapperRef.current], [None] when null. *)
Definition fitToView (wrapper : option DOMRect) (svgSize : Size) (v : View)
    : View :=
  match wrapper with
  | None => v
  | Some wRect =>
      if Qeq_bool (w svgSize) 0 || Qeq_bool (h svgSize) 0 then v
      else if Qeq_bool (width wRect) 0 || Qeq_bool (height wRect) 0 then v
      else
        let fitScale :=
          Qmin (Qmin ((width wRect - padding) / w svgSize)
                     ((height wRect - padding) / h svgSize)) 1 in
        let scaledW := w svgSize * fitScale in
        let scaledH := h svgSize * fitScale in
        mkView fitScale
               (mkPoint ((width wRect - scaledW) / 2)
                        ((height wRect - scaledH) / 2))
  end.

(** [Math.max(0.05, Math.min(5, x))]. *)
Definition clampScale (x : Q) : Q := Qmax (5 # 100) (Qmin 5 x).

(** [zoomFromCenter(factor)], the handler of the [+] and [-] buttons. *)
Definition zoomFromCenter (wrapper : option DOMRect) (factor : Q) (v : View)
    : View :=
  match wrapper with
  | None => v
  | Some rect =>
      let cx := width rect / 2 in
      let cy := height rect / 2 in
      let oldScale := scale v in
      let newScale := clampScale (oldScale * factor) in
      let ratio := newScale / oldScale in
      let oldPan := pan v in
      mkView newScale
             (mkPoint (cx - (cx - x oldPan) * ratio)
                      (cy - (cy - y oldPan) * ratio))
  end.

(** [handleWheel(e)]; the listener is attached to the wrapper, whose
    rectangle is [rect]. *)
Definition handleWheel (rect : DOMRect) (clientX clientY deltaY : Q)
    (v : View) : View :=
  let mouseX := clientX - left rect in
  let mouseY := clientY - top rect in
  let factor := if Qlt_le_dec 0 deltaY then 9 # 10 else 11 # 10 in
  let oldScale := scale v in
  let newScale := clampScale (oldScale * factor) in
  let ratio := newScale / oldScale in
  let oldPan := pan v in
  mkView newScale
         (mkPoint (mouseX - (mouseX - x oldPan) * ratio)
                  (mouseY - (mouseY - y oldPan) * ratio)).

(** The zoom buttons. *)
Definition zoomOut (wrapper : option DOMRect) : View → View :=
  zoomFromCenter wrapper (85 # 100).
Definition zoomIn (wrapper : option DOMRect) : View → View :=
  zoomFromCenter wrapper (115 # 100).

(** [toggleSelectionMode()]: the updater of [selectionMode], which calls
    [onSelectionChange([])] when the mode was on.  [S] is the state of the
    parent the callback writes to. *)
Definition toggleSelectionMode {S A : Type}
    (onSelectionChange : list A → S → S) (prev : bool) (parent : S)
    : bool * S :=
  (negb prev, if prev then onSelectionChange [] parent else parent).

(** *** Hit testing, labels and the pointer handlers *)

(** [a < b] and [a > b] on numbers. *)
Definition Qltb (a b : Q) : bool := negb (Qle_bool b a).

(** [right] and [bottom] of a bounding rectangle. *)
Definition right (r : DOMRect) : Q := left r + width r.
Definition bottom (r : DOMRect) : Q := top r + height r.

(** The rectangle [{ x, y, w, h }] of a marquee. *)
Record Box : Type := mkBox { box_x : Q; box_y : Q; box_w : Q; box_h : Q }.

(** [elementIntersectsRect(el, rect, wrapper)], on the bounding rectangles
    of the element and of the wrapper. *)
Definition elementIntersectsRect (elRect : DOMRect) (rect : Box)
    (wrapperRect : DOMRect) : bool :=
  let local_left := left elRect - left wrapperRect in
  let local_top := top elRect - top wrapperRect in
  let local_right := right elRect - left wrapperRect in
  let local_bottom := bottom elRect - top wrapperRect in
  negb (Qltb local_right (box_x rect)
        || Qltb (box_x rect + box_w rect) local_left
        || Qltb local_bottom (box_y rect)
        || Qltb (box_y rect + box_h rect) local_top).

(** An element on the way from the event target to the container: its
    class and its [id] ([""] when it has none). *)
Inductive Tag : Type := TagG | TagRect | TagPath | TagEllipse | TagOther.

Record Node : Type := mkNode { tag : Tag; nodeId : string }.

Definition isShape (t : Tag) : bool :=
  match t with
  | TagOther => false
  | _ => true
  end.

Definition isG (t : Tag) : bool :=
  match t with
  | TagG => true
  | _ => false
  end.

(** [id && !id.startsWith("_")]. *)
Definition validId (id : string) : bool :=
  Js.truthy id && negb (String.prefix "_" id).

(** [findSelectableId(target, container)]; [chain] is the target followed
    by its ancestors, up to the container and without it.  The parent of
    the last element is the container, or nothing: never a group. *)
Fixpoint findSelectableId (chain : list Node) : option string :=
  match chain with
  | [] => None
  | current :: ancestors =>
      if isShape (tag current) && validId (nodeId current)
      then Some (nodeId current)
      else
        match ancestors with
        | parent :: _ =>
            if isG (tag parent) && validId (nodeId parent)
            then Some (nodeId parent)
            else findSelectableId ancestors
        | [] => findSelectableId ancestors
        end
  end.

(** A group of the rendered SVG: its [id] attribute, its bounding
    rectangle and the [textContent] of the [text] elements below it. *)
Record Group : Type := mkGroup {
  idAttr : option string;
  rect : DOMRect;
  texts : list (option string)
}.

Definition groupId (g : Group) : string := default "" (idAttr g).

(** [querySelectorAll("g[id]:not([id^='_'])")] on the groups of the SVG,
    in document order. *)
Definition matchesSelector (g : Group) : bool :=
  match idAttr g with
  | Some id => negb (String.prefix "_" id)
  | None => false
  end.

Definition selectable (groups : list Group) : list Group :=
  filter (fun g => matchesSelector g = true) groups.

(** [extractElementLabel(el)]. *)
Definition labelParts (texts : list (option string)) : list string :=
  fold_left
    (fun parts t =>
       match t with
       | Some textContent =>
           let text := Js.trim textContent in
           if Js.truthy text && negb (bool_decide (text ∈ parts))
           then parts ++ [text] else parts
       | None => parts
       end) texts [].

Definition extractElementLabel (g : Group) : string :=
  let joined := Js.join " " (labelParts (texts g)) in
  if Js.truthy joined then joined else groupId g.

(** The label map filled when the SVG is injected. *)
Definition buildLabelMap (groups : list Group) : gmap string string :=
  fold_left (fun m g => <[groupId g := extractElementLabel g]> m)
    (selectable groups) ∅.

(** [withLabels(ids)]. *)
Definition withLabels (labelMap : gmap string string) (ids : list string)
    : list SyncLayer.SelectedItem :=
  (fun id =>
     SyncLayer.mkItem id
       (match labelMap !! id with
        | Some l => if Js.truthy l then l else id
        | None => id
        end)) <$> ids.

(** [Array.from(new Set(xs))]: the first occurrence of each element, in
    order. *)
Definition setToArray (xs : list string) : list string :=
  fold_left (fun acc x => if bool_decide (x ∈ acc) then acc else acc ++ [x])
    xs [].

(** The state [marquee]. *)
Record Marquee : Type := mkMarquee {
  active : bool;
  startX : Q;
  startY : Q;
  currentX : Q;
  currentY : Q
}.

(** The refs and state the pointer handlers read and write. *)
Record Pointer : Type := mkPointer {
  dragging : bool;
  dragMoved : bool;
  marqueeJustFinished : bool;
  lastMouse : Point;
  marquee : option Marquee;
  selectionMode : bool;
  view : View
}.

(** [marqueeRef.current?.active]. *)
Definition marqueeActive (p : Pointer) : bool :=
  match marquee p with
  | Some m => active m
  | None => false
  end.

(** [handleClick(e)]: the new refs, and the argument of
    [onSelectionChange] when it is called.  [selected] is
    [selectedRef.current], [chain] leads from [e.target] to the
    container. *)
Definition handleClick (labelMap : gmap string string)
    (selected : list string) (chain : list Node) (p : Pointer)
    : Pointer * option (list SyncLayer.SelectedItem) :=
  if dragMoved p then (p, None)
  else if marqueeJustFinished p then
    (mkPointer (dragging p) (dragMoved p) false (lastMouse p) (marquee p)
       (selectionMode p) (view p), None)
  else if negb (selectionMode p) then (p, None)
  else
    match findSelectableId chain with
    | Some clickedId =>
        if bool_decide (clickedId ∈ selected) then
          let newIds := filter (fun id => id ≠ clickedId) selected in
          (p, Some (withLabels labelMap newIds))
        else
          let newIds := selected ++ [clickedId] in
          (p, Some (withLabels labelMap newIds))
    | None =>
        if (0 <? length selected)%nat then (p, Some []) else (p, None)
    end.

(** [handleMouseDown(e)]; [wrapper] is the rectangle of
    [wrapperRef.current], [None] when the ref is null. *)
Definition handleMouseDown (button : Z) (chain : list Node)
    (wrapper : option DOMRect) (clientX clientY : Q) (p : Pointer)
    : Pointer :=
  if negb (Z.eqb button 0) then p
  else
    let pan_start :=
      mkPointer true false (marqueeJustFinished p) (mkPoint clientX clientY)
        (marquee p) (selectionMode p) (view p) in
    if selectionMode p then
      match findSelectableId chain, wrapper with
      | None, Some rect =>
          let startX := clientX - left rect in
          let startY := clientY - top rect in
          mkPointer (dragging p) (dragMoved p) (marqueeJustFinished p)
            (lastMouse p) (Some (mkMarquee true startX startY startX startY))
            (selectionMode p) (view p)
      | _, _ => pan_start
      end
    else pan_start.

(** [handleMouseMove(e)]. *)
Definition handleMouseMove (wrapper : option DOMRect) (clientX clientY : Q)
    (p : Pointer) : Pointer :=
  match (if marqueeActive p then wrapper else None) with
  | Some rect =>
      mkPointer (dragging p) (dragMoved p) (marqueeJustFinished p)
        (lastMouse p)
        (match marquee p with
         | Some prev =>
             Some (mkMarquee (active prev) (startX prev) (startY prev)
                     (clientX - left rect) (clientY - top rect))
         | None => None
         end)
        (selectionMode p) (view p)
  | None =>
      if negb (dragging p) then p
      else
        let dx := clientX - x (lastMouse p) in
        let dy := clientY - y (lastMouse p) in
        mkPointer (dragging p)
          (if Qltb 3 (Qabs dx) || Qltb 3 (Qabs dy) then true
           else dragMoved p)
          (marqueeJustFinished p) (mkPoint clientX clientY) (marquee p)
          (selectionMode p)
          (mkView (scale (view p))
             (mkPoint (x (pan (view p)) + dx) (y (pan (view p)) + dy)))
  end.

(** The rectangle of a marquee, as [handleMouseUp] computes it. *)
Definition marqueeBox (m : Marquee) : Box :=
  mkBox (Qmin (startX m) (currentX m)) (Qmin (startY m) (currentY m))
        (Qabs (currentX m - startX m)) (Qabs (currentY m - startY m)).

(** The identifiers of the selectable groups whose bounding rectangle
    meets the marquee, in document order. *)
Definition marqueeHits (box : Box) (wrapperRect : DOMRect)
    (groups : list Group) : list string :=
  groupId <$>
    filter (fun g => elementIntersectsRect (rect g) box wrapperRect = true)
      (selectable groups).

(** [handleMouseUp(e)]; [container] tells whether [containerRef.current]
    is set, [svg] is the list of the groups of the [svg] element, [None]
    when the container holds none. *)
Definition handleMouseUp (labelMap : gmap string string)
    (selected : list string) (wrapper : option DOMRect) (container : bool)
    (svg : option (list Group)) (shiftKey : bool) (p : Pointer)
    : Pointer * option (list SyncLayer.SelectedItem) :=
  match marquee p, wrapper with
  | Some m, Some wrapperRect =>
      if active m && container then
        let box := marqueeBox m in
        let change :=
          if Qltb 5 (box_w box) && Qltb 5 (box_h box) then
            match svg with
            | Some groups =>
                let hits := marqueeHits box wrapperRect groups in
                if shiftKey && (0 <? length selected)%nat
                then Some (withLabels labelMap
                             (setToArray (selected ++ hits)))
                else Some (withLabels labelMap hits)
            | None => None
            end
          else None in
        (mkPointer (dragging p) (dragMoved p) true (lastMouse p) None
           (selectionMode p) (view p), change)
      else
        (mkPointer false (dragMoved p) (marqueeJustFinished p) (lastMouse p)
           (marquee p) (selectionMode p) (view p), None)
  | _, _ =>
      (mkPointer false (dragMoved p) (marqueeJustFinished p) (lastMouse p)
         (marquee p) (selectionMode p) (view p), None)
  end.

(** [handleMouseLeave()]. *)
Definition handleMouseLeave (p : Pointer) : Pointer :=
  mkPointer false (dragMoved p) (marqueeJustFinished p) (lastMouse p)
    (if marqueeActive p then None else marquee p) (selectionMode p) (view p).

(** Overlap of the bounding rectangle of an element with a marquee, both
    taken in the frame of the wrapper: the two intervals meet on each
    axis, touching included. *)
Definition Overlaps (elRect : DOMRect) (box : Box) (wrapperRect : DOMRect)
    : Prop :=
  box_x box <= right elRect - left wrapperRect
  /\ left elRect - left wrapperRect <= box_x box + box_w box
  /\ box_y box <= bottom elRect - top wrapperRect
  /\ top elRect - top wrapperRect <= box_y box + box_h box.

(** The pointer moves while a button is held: one [handleMouseMove] for
    each position, in order. *)
Definition drag (wrapper : option DOMRect) (positions : list (Q * Q))
    (p : Pointer) : Pointer :=
  fold_left (fun q pos => handleMouseMove wrapper (fst pos) (snd pos) q)
    positions p.

(** The interval the specification gives for the scale factor. *)
Definition scaleInRange (v : View) : Prop :=
  (5 # 100) <= scale v /\ scale v <= 5.

End DiagramView.

(** ** engine/detect.ts *)

Module Detect.

(** [s.split("\n")]. *)
Fixpoint split (s : string) : list string :=
  match s with
  | "" => [""]
  | String c s' =>
      if Ascii.eqb c "010"%char then "" :: split s'
      else
        match split s' with
        | l :: ls => String c l :: ls
        | [] => [String c ""]
        end
  end.

(** The code units the [.] of a regular expression refuses. *)
Definition isLineTerminator (c : ascii) : bool :=
  let n := nat_of_ascii c in (n =? 10) || (n =? 13).

(** [/^kw\s/i]. *)
Definition keyword (kw l : string) : bool :=
  match Js.ciPrefix kw l with
  | Some (String c _) => Js.isWhiteSpace c
  | _ => false
  end.

(** [/^kw$/i]. *)
Definition wholeLine (kw l : string) : bool :=
  match Js.ciPrefix kw l with
  | Some "" => true
  | _ => false
  end.

(** [/^kw/i]. *)
Definition opens (kw l : string) : bool :=
  match Js.ciPrefix kw l with
  | Some _ => true
  | None => false
  end.

(** [.*] followed by [k]: some prefix without line terminator, after which
    [k] matches. *)
Fixpoint dotStar (k : string → bool) (s : string) : bool :=
  k s
  || match s with
     | String c s' => if isLineTerminator c then false else dotStar k s'
     | "" => false
     end.

(** End of input. *)
Definition atEnd (s : string) : bool :=
  match s with
  | "" => true
  | _ => false
  end.

(** One code unit of [[;|<>/\]}]], then the end of input. *)
Definition activityEnd (s : string) : bool :=
  match s with
  | String c "" =>
      existsb (Ascii.eqb c)
        [";"%char; "|"%char; "<"%char; ">"%char; "/"%char; "]"%char;
         "}"%char]
  | _ => false
  end.

(** [\)\s+as\s]. *)
Definition parenAs (s : string) : bool :=
  match s with
  | String c r =>
      Ascii.eqb c ")"%char
      && match r with
         | String w _ =>
             Js.isWhiteSpace w && keyword "as" (Js.trimStart r)
         | "" => false
         end
  | "" => false
  end.

(** [\]\s]. *)
Definition bracketSpace (s : string) : bool :=
  match s with
  | String c (String w _) => Ascii.eqb c "]"%char && Js.isWhiteSpace w
  | _ => false
  end.

(** The tests of the loop body on a line that is not skipped, in order. *)
Definition classify (l : string) : option string :=
  if keyword "class" l || keyword "interface" l || keyword "abstract" l
     || keyword "enum" l then Some "class"
  else if keyword "participant" l || keyword "actor" l
          || keyword "->" l || keyword "<-" l || String.prefix "-->" l
  then Some "sequence"
  else if match l with
          | String c r => Ascii.eqb c ":"%char && dotStar activityEnd r
          | "" => false
          end
          || wholeLine "start" l || wholeLine "stop" l
  then Some "activity"
  else if keyword "usecase" l
          || match l with
             | String c r => Ascii.eqb c "("%char && dotStar parenAs r
             | "" => false
             end
  then Some "usecase"
  else if keyword "component" l
          || match l with
             | String c r => Ascii.eqb c "["%char && dotStar bracketSpace r
             | "" => false
             end
  then Some "component"
  else if keyword "node" l || keyword "cloud" l || keyword "database" l
  then Some "deployment"
  else if keyword "state" l
          || match Js.ciPrefix "[*]" l with
             | Some r => String.prefix "-->" (Js.trimStart r)
             | None => false
             end
  then Some "state"
  else if keyword "object" l then Some "object"
  else if keyword "robust" l || keyword "concise" l || keyword "clock" l
          || keyword "binary" l then Some "timing"
  else if opens "@startgantt" l then Some "gantt"
  else if opens "@startmindmap" l then Some "mindmap"
  else if opens "@startwbs" l then Some "wbs"
  else if opens "@startjson" l then Some "json"
  else if opens "@startyaml" l then Some "yaml"
  else if opens "@startsalt" l then Some "salt"
  else if opens "@startditaa" l then Some "ditaa"
  else if opens "@startdot" l then Some "dot"
  else if keyword "entity" l then Some "er"
  else if keyword "map" l then Some "map"
  else None.

(** The lines the loop passes over: blank ones, comments, [@startuml]. *)
Definition skipped (l : string) : bool :=
  negb (Js.truthy l) || String.prefix "'" l || String.prefix "/'" l
  || String.prefix "@startuml" l.

(** The loop over the lines. *)
Fixpoint detectLines (lines : list string) : string :=
  match lines with
  | [] => "unknown"
  | line :: rest =>
      let l := Js.trim line in
      if skipped l then detectLines rest
      else default "unknown" (classify l)
  end.

(** [detectDiagramType(code)]. *)
Definition detectDiagramType (code : string) : string :=
  let trimmed := Js.trim code in
  if negb (Js.truthy trimmed) then "unknown"
  else detectLines (split trimmed).

(** Every answer the function can give. *)
Definition DIAGRAM_TYPES : list string :=
  ["class"; "sequence"; "activity"; "usecase"; "component"; "deployment";
   "state"; "object"; "timing"; "gantt"; "mindmap"; "wbs"; "json"; "yaml";
   "salt"; "ditaa"; "dot"; "er"; "map"; "unknown"].

End Detect.

(** ** App.tsx: the render scheduler *)

Module App.

(** The closure of a [doRender] call suspended at its [await]: the version
    it captured, its [code] argument, the text handed to [renderPlantUml]
    and its [isStreaming] argument. *)
Record Pending : Type := mkPending {
  p_version : nat;
  p_code : string;
  p_renderCode : string;
  p_isStreaming : bool
}.

(** How the awaited [renderPlantUml] promise settles: with an SVG, or with
    an error whose message is [msg]. *)
Inductive RenderResult : Type :=
| Svg (svg : string)
| Failed (msg : string).

(** React state, refs and the observable calls of the component.  A pending
    [setTimeout] is its deadline with the arguments its callback captured;
    a cancelled or fired one is [None] (the sources keep the dead handle in
    the ref, where only [clearTimeout] reads it).  [renderCalls] lists the
    [doRender] calls in order, [sendMessageCalls] the texts passed to
    [appRef.current.sendMessage].  State that the scheduler never reads
    ([diagramInput], [partial], the display mode, the host height, the view
    mode, the silent-sync timer) is left out. *)
Record AppState : Type := mkApp {
  plantUmlCode : string;
  streaming : bool;
  selectedElements : list string;
  svgContent : option string;
  renderLoading : bool;
  renderError : option string;
  renderTimer : option (nat * string);
  renderVersion : nat;
  errorAlreadySent : option string;
  errorFixTimer : option (nat * (string * string));
  isToolInputError : bool;
  streamingRenderTimer : option nat;
  appRef : option SyncLayer.McpApp;
  changeLog : ChangeLog.t;
  changeCount : nat;
  now : nat;
  renderCalls : list Pending;
  sendMessageCalls : list string
}.

Definition set_plantUmlCode (v : string) (s : AppState) : AppState :=
  mkApp v (streaming s) (selectedElements s) (svgContent s)
    (renderLoading s) (renderError s) (renderTimer s) (renderVersion s)
    (errorAlreadySent s) (errorFixTimer s) (isToolInputError s)
    (streamingRenderTimer s) (appRef s) (changeLog s) (changeCount s) (now
    s) (renderCalls s) (sendMessageCalls s).
Definition set_streaming (v : bool) (s : AppState) : AppState :=
  mkApp (plantUmlCode s) v (selectedElements s) (svgContent s)
    (renderLoading s) (renderError s) (renderTimer s) (renderVersion s)
    (errorAlreadySent s) (errorFixTimer s) (isToolInputError s)
    (streamingRenderTimer s) (appRef s) (changeLog s) (changeCount s) (now
    s) (renderCalls s) (sendMessageCalls s).
Definition set_selectedElements (v : list string) (s : AppState) : AppState :=
  mkApp (plantUmlCode s) (streaming s) v (svgContent s) (renderLoading
    s) (renderError s) (renderTimer s) (renderVersion s) (errorAlreadySent
    s) (errorFixTimer s) (isToolInputError s) (streamingRenderTimer s)
    (appRef s) (changeLog s) (changeCount s) (now s) (renderCalls s)
    (sendMessageCalls s).
Definition set_svgContent (v : option string) (s : AppState) : AppState :=
  mkApp (plantUmlCode s) (streaming s) (selectedElements s) v
    (renderLoading s) (renderError s) (renderTimer s) (renderVersion s)
    (errorAlreadySent s) (errorFixTimer s) (isToolInputError s)
    (streamingRenderTimer s) (appRef s) (changeLog s) (changeCount s) (now
    s) (renderCalls s) (sendMessageCalls s).
Definition set_renderLoading (v : bool) (s : AppState) : AppState :=
  mkApp (plantUmlCode s) (streaming s) (selectedElements s) (svgContent
    s) v (renderError s) (renderTimer s) (renderVersion s)
    (errorAlreadySent s) (errorFixTimer s) (isToolInputError s)
    (streamingRenderTimer s) (appRef s) (changeLog s) (changeCount s) (now
    s) (renderCalls s) (sendMessageCalls s).
Definition set_renderError (v : option string) (s : AppState) : AppState :=
  mkApp (plantUmlCode s) (streaming s) (selectedElements s) (svgContent
    s) (renderLoading s) v (renderTimer s) (renderVersion s)
    (errorAlreadySent s) (errorFixTimer s) (isToolInputError s)
    (streamingRenderTimer s) (appRef s) (changeLog s) (changeCount s) (now
    s) (renderCalls s) (sendMessageCalls s).
Definition set_renderTimer (v : option (nat * string)) (s : AppState) : AppState :=
  mkApp (plantUmlCode s) (streaming s) (selectedElements s) (svgContent
    s) (renderLoading s) (renderError s) v (renderVersion s)
    (errorAlreadySent s) (errorFixTimer s) (isToolInputError s)
    (streamingRenderTimer s) (appRef s) (changeLog s) (changeCount s) (now
    s) (renderCalls s) (sendMessageCalls s).
Definition set_renderVersion (v : nat) (s : AppState) : AppState :=
  mkApp (plantUmlCode s) (streaming s) (selectedElements s) (svgContent
    s) (renderLoading s) (renderError s) (renderTimer s) v
    (errorAlreadySent s) (errorFixTimer s) (isToolInputError s)
    (streamingRenderTimer s) (appRef s) (changeLog s) (changeCount s) (now
    s) (renderCalls s) (sendMessageCalls s).
Definition set_errorAlreadySent (v : option string) (s : AppState) : AppState :=
  mkApp (plantUmlCode s) (streaming s) (selectedElements s) (svgContent
    s) (renderLoading s) (renderError s) (renderTimer s) (renderVersion s)
    v (errorFixTimer s) (isToolInputError s) (streamingRenderTimer s)
    (appRef s) (changeLog s) (changeCount s) (now s) (renderCalls s)
    (sendMessageCalls s).
Definition set_errorFixTimer (v : option (nat * (string * string))) (s : AppState) : AppState :=
  mkApp (plantUmlCode s) (streaming s) (selectedElements s) (svgContent
    s) (renderLoading s) (renderError s) (renderTimer s) (renderVersion s)
    (errorAlreadySent s) v (isToolInputError s) (streamingRenderTimer s)
    (appRef s) (changeLog s) (changeCount s) (now s) (renderCalls s)
    (sendMessageCalls s).
Definition set_isToolInputError (v : bool) (s : AppState) : AppState :=
  mkApp (plantUmlCode s) (streaming s) (selectedElements s) (svgContent
    s) (renderLoading s) (renderError s) (renderTimer s) (renderVersion s)
    (errorAlreadySent s) (errorFixTimer s) v (streamingRenderTimer s)
    (appRef s) (changeLog s) (changeCount s) (now s) (renderCalls s)
    (sendMessageCalls s).
Definition set_streamingRenderTimer (v : option nat) (s : AppState) : AppState :=
  mkApp (plantUmlCode s) (streaming s) (selectedElements s) (svgContent
    s) (renderLoading s) (renderError s) (renderTimer s) (renderVersion s)
    (errorAlreadySent s) (errorFixTimer s) (isToolInputError s) v (appRef
    s) (changeLog s) (changeCount s) (now s) (renderCalls s)
    (sendMessageCalls s).
Definition set_appRef (v : option SyncLayer.McpApp) (s : AppState) : AppState :=
  mkApp (plantUmlCode s) (streaming s) (selectedElements s) (svgContent
    s) (renderLoading s) (renderError s) (renderTimer s) (renderVersion s)
    (errorAlreadySent s) (errorFixTimer s) (isToolInputError s)
    (streamingRenderTimer s) v (changeLog s) (changeCount s) (now s)
    (renderCalls s) (sendMessageCalls s).
Definition set_changeLog (v : ChangeLog.t) (s : AppState) : AppState :=
  mkApp (plantUmlCode s) (streaming s) (selectedElements s) (svgContent
    s) (renderLoading s) (renderError s) (renderTimer s) (renderVersion s)
    (errorAlreadySent s) (errorFixTimer s) (isToolInputError s)
    (streamingRenderTimer s) (appRef s) v (changeCount s) (now s)
    (renderCalls s) (sendMessageCalls s).
Definition set_changeCount (v : nat) (s : AppState) : AppState :=
  mkApp (plantUmlCode s) (streaming s) (selectedElements s) (svgContent
    s) (renderLoading s) (renderError s) (renderTimer s) (renderVersion s)
    (errorAlreadySent s) (errorFixTimer s) (isToolInputError s)
    (streamingRenderTimer s) (appRef s) (changeLog s) v (now s)
    (renderCalls s) (sendMessageCalls s).
Definition set_now (v : nat) (s : AppState) : AppState :=
  mkApp (plantUmlCode s) (streaming s) (selectedElements s) (svgContent
    s) (renderLoading s) (renderError s) (renderTimer s) (renderVersion s)
    (errorAlreadySent s) (errorFixTimer s) (isToolInputError s)
    (streamingRenderTimer s) (appRef s) (changeLog s) (changeCount s) v
    (renderCalls s) (sendMessageCalls s).
Definition set_renderCalls (v : list Pending) (s : AppState) : AppState :=
  mkApp (plantUmlCode s) (streaming s) (selectedElements s) (svgContent
    s) (renderLoading s) (renderError s) (renderTimer s) (renderVersion s)
    (errorAlreadySent s) (errorFixTimer s) (isToolInputError s)
    (streamingRenderTimer s) (appRef s) (changeLog s) (changeCount s) (now
    s) v (sendMessageCalls s).
Definition set_sendMessageCalls (v : list string) (s : AppState) : AppState :=
  mkApp (plantUmlCode s) (streaming s) (selectedElements s) (svgContent
    s) (renderLoading s) (renderError s) (renderTimer s) (renderVersion s)
    (errorAlreadySent s) (errorFixTimer s) (isToolInputError s)
    (streamingRenderTimer s) (appRef s) (changeLog s) (changeCount s) (now
    s) (renderCalls s) v.

(** *** The streaming repair of [doRender] *)

(** The alternatives of [/@end(uml|ditaa|...)\s*$/i]. *)
Definition END_KINDS : list string :=
  ["uml"; "ditaa"; "salt"; "gantt"; "mindmap"; "wbs"; "json"; "yaml";
   "nwdiag"; "regex"].

(** [/@end(uml|...|regex)\s*$/i] matched at the start of [t]. *)
Definition endMarkerAt (t : string) : option unit :=
  match Js.ciPrefix "@end" t with
  | Some r =>
      if existsb
           (fun k =>
              match Js.ciPrefix k r with
              | Some r' => Js.allWhite r'
              | None => false
              end) END_KINDS
      then Some tt else None
  | None => None
  end.

Definition endMarkerRe (s : string) : bool :=
  match Js.search endMarkerAt s with
  | Some _ => true
  | None => false
  end.

(** [/@start(\w+)/i] matched at the start of [t]: the capture group. *)
Definition startAt (t : string) : option string :=
  match Js.ciPrefix "@start" t with
  | Some r =>
      match Js.takeWord r with
      | "" => None
      | kind => Some kind
      end
  | None => None
  end.

(** [trimmed.match(/@start(\w+)/i)], group 1 of the first match. *)
Definition startMatch (s : string) : option string := Js.search startAt s.

(** The value of [renderCode] in a streaming render. *)
Definition repairStreaming (code : string) : string :=
  let trimmed := Js.trimEnd code in
  if negb (endMarkerRe trimmed) then
    let endTag :=
      match startMatch trimmed with
      | Some kind => "@end" +:+ kind
      | None => "@enduml"
      end in
    trimmed +:+ Js.nl +:+ endTag
  else code.

(** The same in the words of the specification, to compare with the
    regular expressions above.  A text ends with a recognised closing
    marker when it is some prefix, then [@end] and one of the kinds in any
    letter case, then white space only. *)
Definition EndsWithClosingMarker (t : string) : Prop :=
  ∃ pre m ws kind,
    t = pre +:+ m +:+ ws
    ∧ kind ∈ END_KINDS
    ∧ Js.ciPrefix ("@end" +:+ kind) m = Some ""
    ∧ Js.allWhite ws = true.

(** An opener starts the text [u]: [@start] in any letter case followed by
    a word character. *)
Definition OpenerAt (u : string) : Prop :=
  ∃ a c r,
    u = a +:+ String c r
    ∧ Js.ciPrefix "@start" a = Some ""
    ∧ Js.isWordChar c = true.

Fixpoint allWord (s : string) : bool :=
  match s with
  | "" => true
  | String c s' => Js.isWordChar c && allWord s'
  end.

(** [kind] is the kind of the first opener of [t]: the word that follows
    the leftmost [@start] which a word character follows. *)
Definition FirstOpener (t kind : string) : Prop :=
  ∃ pre a rest,
    t = pre +:+ a +:+ kind +:+ rest
    ∧ Js.ciPrefix "@start" a = Some ""
    ∧ kind ≠ ""
    ∧ allWord kind = true
    ∧ match rest with
      | "" => True
      | String c _ => Js.isWordChar c = false
      end
    ∧ ∀ pre1 pre2,
        pre = pre1 +:+ pre2 → pre2 ≠ "" →
        ¬ OpenerAt (pre2 +:+ a +:+ kind +:+ rest).

Definition NoOpener (t : string) : Prop :=
  ∀ pre suf, t = pre +:+ suf → ¬ OpenerAt suf.

(** *** Error auto-fix *)

Definition SYNTAX_ERROR_MSG : string :=
  "PlantUML syntax error — the diagram SVG shows an error".

Definition errorKeyOf (errorMsg code : string) : string :=
  errorMsg +:+ "::" +:+ Js.sliceTo 200 code.

Definition fixRequestText (errorMsg code : string) : string :=
  "The PlantUML diagram has errors. Please fix and regenerate."
  +:+ Js.nl +:+ Js.nl +:+ "Error: " +:+ errorMsg
  +:+ Js.nl +:+ Js.nl +:+ "Current code:" +:+ Js.nl +:+ "```plantuml"
  +:+ Js.nl +:+ code +:+ Js.nl +:+ "```".

(** [scheduleErrorAutoFix(errorMsg, code)]: the pending timer, if any, is
    replaced by one due in 3000 ms. *)
Definition scheduleErrorAutoFix (errorMsg code : string) (s : AppState)
    : AppState :=
  set_errorFixTimer (Some (now s + 3000, (errorMsg, code))) s.

(** The callback of the auto-fix timer. *)
Definition errorFixCallback (errorMsg code : string) (s : AppState)
    : AppState :=
  match appRef s with
  | None => s
  | Some _ =>
      if negb (isToolInputError s) then s
      else
        let errorKey := errorKeyOf errorMsg code in
        if bool_decide (errorAlreadySent s = Some errorKey) then s
        else
          let s := set_errorAlreadySent (Some errorKey) s in
          set_sendMessageCalls
            (sendMessageCalls s ++ [fixRequestText errorMsg code]) s
  end.

(** *** [doRender] *)

(** [doRender(code, isStreaming)] up to its [await]. *)
Definition doRender_call (code : string) (isStreaming : bool) (s : AppState)
    : AppState * Pending :=
  let version := S (renderVersion s) in
  let s := set_renderVersion version s in
  let s :=
    if negb isStreaming
    then set_renderError None (set_renderLoading true s) else s in
  let renderCode := if isStreaming then repairStreaming code else code in
  let p := mkPending version code renderCode isStreaming in
  (set_renderCalls (renderCalls s ++ [p]) s, p).

Definition doRender (code : string) (isStreaming : bool) (s : AppState)
    : AppState :=
  fst (doRender_call code isStreaming s).

(** The continuation of [doRender] after the [await]: the rest of the [try]
    block or the [catch] block, then the [finally] block. *)
Definition doRender_resume (p : Pending) (r : RenderResult) (s : AppState)
    : AppState :=
  let version := p_version p in
  let isStreaming := p_isStreaming p in
  let s :=
    match r with
    | Svg svg =>
        if negb (version =? renderVersion s) then s
        else if isStreaming then
          if negb (Render.isSvgError svg)
          then set_renderError None (set_svgContent (Some svg) s)
          else s
        else
          let s := set_svgContent (Some svg) s in
          if Render.isSvgError svg then
            scheduleErrorAutoFix SYNTAX_ERROR_MSG (p_code p)
              (set_renderError (Some "PlantUML syntax error") s)
          else set_errorAlreadySent None (set_renderError None s)
    | Failed msg =>
        if negb (version =? renderVersion s) then s
        else if negb isStreaming then set_renderError (Some msg) s
        else s
    end in
  if (version =? renderVersion s) && negb isStreaming
  then set_renderLoading false s else s.

(** *** Debounce, effects and handlers *)

(** [scheduleRender(code)]. *)
Definition scheduleRender (code : string) (s : AppState) : AppState :=
  set_renderTimer (Some (now s + 800, code)) s.

(** The effect on [plantUmlCode]: its cleanup and its body. *)
Definition codeCleanup (s : AppState) : AppState := set_renderTimer None s.

Definition codeEffect (s : AppState) : AppState :=
  if Js.truthy (Js.trim (plantUmlCode s))
  then scheduleRender (plantUmlCode s) s else s.

(** The effect on [streaming]: its cleanup and its body. *)
Definition streamingCleanup (s : AppState) : AppState :=
  set_streamingRenderTimer None s.

Definition streamingEffect (s : AppState) : AppState :=
  if streaming s then
    let s := doRender (plantUmlCode s) true s in
    set_streamingRenderTimer (Some (now s + 2000)) s
  else set_streamingRenderTimer None s.

(** React commits the state written by a handler: the effects whose
    dependency changed since the previous render run, first their cleanups,
    then their bodies, in the order of the source. *)
Definition commit (prev s : AppState) : AppState :=
  let streamingChanged := negb (Bool.eqb (streaming prev) (streaming s)) in
  let codeChanged :=
    negb (String.eqb (plantUmlCode prev) (plantUmlCode s)) in
  let s := if streamingChanged then streamingCleanup s else s in
  let s := if codeChanged then codeCleanup s else s in
  let s := if streamingChanged then streamingEffect s else s in
  if codeChanged then codeEffect s else s.

(** [handleCodeChange(newCode)], the editor's [onChange]. *)
Definition handleCodeChange (newCode : string) (s : AppState) : AppState :=
  let s1 := set_plantUmlCode newCode s in
  let s1 := set_isToolInputError false s1 in
  let s1 :=
    set_changeLog
      (ChangeLog.add (ChangeLog.Edit "manual code edit") (changeLog s1)) s1 in
  let s1 := set_changeCount (ChangeLog.count (changeLog s1)) s1 in
  commit s s1.

(** [mcpApp.ontoolinput]; the argument is [args.plantUmlCode]. *)
Definition ontoolinput (plantUmlCodeArg : option string) (s : AppState)
    : AppState :=
  let code := default "" plantUmlCodeArg in
  let s1 := set_isToolInputError true s in
  let s1 := set_plantUmlCode code s1 in
  let s1 := set_streaming false s1 in
  let s1 := set_changeLog (ChangeLog.clear (changeLog s1)) s1 in
  let s1 := set_changeCount 0 s1 in
  commit s s1.

(** [mcpApp.ontoolinputpartial]; the argument is [args?.plantUmlCode]. *)
Definition ontoolinputpartial (plantUmlCodeArg : option string)
    (s : AppState) : AppState :=
  match plantUmlCodeArg with
  | Some partialCode =>
      if Js.truthy partialCode then
        let s1 := set_streaming true s in
        let s1 := set_plantUmlCode partialCode s1 in
        commit s s1
      else s
  | None => s
  end.

(** [onSelectionChange] of the diagram view is [setSelectedElements]. *)
Definition toggleSelectionMode (selectionMode : bool) (s : AppState)
    : bool * AppState :=
  DiagramView.toggleSelectionMode set_selectedElements selectionMode s.

(** *** Timers and the clock *)

Definition fireRenderTimer (s : AppState) : AppState :=
  match renderTimer s with
  | Some (due, code) =>
      if due <=? now s then doRender code false (set_renderTimer None s)
      else s
  | None => s
  end.

Definition fireErrorFixTimer (s : AppState) : AppState :=
  match errorFixTimer s with
  | Some (due, (errorMsg, code)) =>
      if due <=? now s
      then errorFixCallback errorMsg code (set_errorFixTimer None s)
      else s
  | None => s
  end.

(** The streaming interval reads [latestCode.current], which every render
    sets to [plantUmlCode]. *)
Definition fireStreamingInterval (s : AppState) : AppState :=
  match streamingRenderTimer s with
  | Some due =>
      if due <=? now s
      then doRender (plantUmlCode s) true
             (set_streamingRenderTimer (Some (due + 2000)) s)
      else s
  | None => s
  end.

(** One millisecond passes; the timers that are due fire.  Timers due at
    the same time fire in the order they were set: the auto-fix timer was
    set 3000 ms before, the current period of the interval began 2000 ms
    before, the debounce timer was set 800 ms before. *)
Definition tick (s : AppState) : AppState :=
  fireRenderTimer
    (fireStreamingInterval (fireErrorFixTimer (set_now (S (now s)) s))).

Definition elapse (ms : nat) (s : AppState) : AppState := Nat.iter ms tick s.

(** *** Mounting *)

Definition SAMPLE_PLANTUML : string :=
  Js.join Js.nl
    ["@startuml";
     "actor User";
     "participant " +:+ Js.dq +:+ "Web App" +:+ Js.dq +:+ " as App";
     "participant " +:+ Js.dq +:+ "API Server" +:+ Js.dq +:+ " as API";
     "database " +:+ Js.dq +:+ "Database" +:+ Js.dq +:+ " as DB";
     "";
     "User -> App : Open page";
     "activate App";
     "";
     "App -> API : GET /data";
     "activate API";
     "";
     "API -> DB : SELECT query";
     "activate DB";
     "DB --> API : Result set";
     "deactivate DB";
     "";
     "API --> App : JSON response";
     "deactivate API";
     "";
     "App --> User : Render page";
     "deactivate App";
     "@enduml"].

(** The state after the first render of the component and its mount
    effects, with [mcpApp] the handle created there. *)
Definition mount (mcpApp : SyncLayer.McpApp) : AppState :=
  let s :=
    mkApp SAMPLE_PLANTUML false [] None false None None 0 None None false
          None (Some mcpApp) [] 0 0 [] [] in
  codeEffect (streamingEffect s).

(** *** Event traces *)

Inductive Event : Type :=
| CodeChange (newCode : string)
| ToolInput (plantUmlCodeArg : option string)
| ToolInputPartial (plantUmlCodeArg : option string)
| Settle (p : Pending) (r : RenderResult)
| Elapse (ms : nat).

Definition step (s : AppState) (e : Event) : AppState :=
  match e with
  | CodeChange newCode => handleCodeChange newCode s
  | ToolInput a => ontoolinput a s
  | ToolInputPartial a => ontoolinputpartial a s
  | Settle p r => doRender_resume p r s
  | Elapse ms => elapse ms s
  end.

Definition run (es : list Event) (s : AppState) : AppState :=
  fold_left step es s.

(** A burst of edits: each entry is the time since the previous event and
    the new text of the editor. *)
Fixpoint edits (burst : list (nat * string)) (s : AppState) : AppState :=
  match burst with
  | [] => s
  | (gap, newCode) :: rest =>
      edits rest (handleCodeChange newCode (elapse gap s))
  end.

(** Every edit of the burst changes the text of the editor, as the
    editor's [docChanged] updates do. *)
Fixpoint editsChangeText (prev : string) (burst : list (nat * string))
    : bool :=
  match burst with
  | [] => true
  | (_, newCode) :: rest =>
      negb (String.eqb prev newCode) && editsChangeText newCode rest
  end.

(** The text of the editor after the burst. *)
Fixpoint lastText (prev : string) (burst : list (nat * string)) : string :=
  match burst with
  | [] => prev
  | (_, newCode) :: rest => lastText newCode rest
  end.

(** The gaps of a burst after its first edit are all below [ms]. *)
Definition gapsBelow (ms : nat) (burst : list (nat * string)) : bool :=
  forallb (fun e => e.1 <? ms) burst.

(** The part of the state the debounce of renders reads and writes, and
    the part the auto-fix reads and writes. *)
Definition renderSide (s : AppState)
    : string * bool * option (nat * string) * option nat * nat
      * list Pending :=
  (plantUmlCode s, streaming s, renderTimer s, streamingRenderTimer s,
   renderVersion s, renderCalls s).



(** [handleSendToAgent()]; [app] is the React state [app], set once the
    connection is up, and the diagram type is the one detected from the
    text. *)
Definition handleSendToAgent (app : option SyncLayer.McpApp) (s : AppState)
    : AppState :=
  let detectedType := Detect.detectDiagramType (plantUmlCode s) in
  match
    SyncLayer.sendToAgent app (plantUmlCode s) (selectedElements s)
      detectedType (SyncLayer.mkWorld (changeLog s) (sendMessageCalls s))
  with
  | (SyncLayer.Returned _, w) =>
      set_changeCount 0
        (set_sendMessageCalls (SyncLayer.sendMessageCalls w)
           (set_changeLog (SyncLayer.changeLog w) s))
  | (SyncLayer.Thrown _, w) =>
      set_sendMessageCalls (SyncLayer.sendMessageCalls w)
        (set_changeLog (SyncLayer.changeLog w) s)
  end.

(** How a settled [renderPlantUml] promise reaches [doRender]. *)
Definition resultOf (r : Render.Settled) : RenderResult :=
  match r with
  | Render.Fulfilled svg => Svg svg
  | Render.Rejected msg => Failed msg
  end.

(** What the scheduler keeps true of its bookkeeping: the calls of
    [doRender] carry the versions 1, 2, ... in order and the counter is the
    last of them; the streaming interval runs exactly while the streaming
    flag is set; a pending debounce timer carries the current text, which
    is not blank; no call hands a blank text to the rendering engine. *)
Record Consistent (s : AppState) : Prop := mkConsistent {
  versions_in_order :
    p_version <$> renderCalls s = seq 1 (length (renderCalls s));
  version_is_count : renderVersion s = length (renderCalls s);
  interval_iff_streaming :
    streamingRenderTimer s = None <-> streaming s = false;
  debounce_current :
    forall due code, renderTimer s = Some (due, code) ->
      code = plantUmlCode s /\ Js.trim code <> ""%string;
  calls_not_blank :
    forall p, p ∈ renderCalls s -> Js.trim (p_renderCode p) <> ""%string
}.

End App.

(** * Properties *)

(** ** Strings *)

Lemma trimEnd_empty_iff (s : string) :
  Js.trimEnd s = "" ↔ Js.allWhite s = true.
Proof.
  induction s as [|c s IH]; simpl; [done|].
  destruct (Js.trimEnd s) eqn:E.
  - destruct (Js.isWhiteSpace c); simpl.
    + split; [intros _; by apply IH | done].
    + split; discriminate.
  - split; [discriminate|].
    intros [_ H]%andb_true_iff. apply IH in H. discriminate.
Qed.

Lemma allWhite_trimStart (s : string) :
  Js.allWhite (Js.trimStart s) = Js.allWhite s.
Proof.
  induction s as [|c s IH]; simpl; [done|].
  destruct (Js.isWhiteSpace c) eqn:E; simpl; [done|].
  by rewrite E.
Qed.

(** [trimEnd] removes a suffix of white space, and all of it. *)
Lemma trimEnd_split (s : string) :
  ∃ ws, s = Js.trimEnd s +:+ ws ∧ Js.allWhite ws = true.
Proof.
  induction s as [|c s (ws & Hs & Hws)]; [by exists ""|].
  simpl. destruct (Js.trimEnd s) as [|d t] eqn:E.
  - destruct (Js.isWhiteSpace c) eqn:Hc.
    + exists (String c s). split; [done|]. simpl. rewrite Hc.
      by apply trimEnd_empty_iff.
    + exists ws. split; [|done]. by rewrite Hs at 1.
  - exists ws. split; [|done]. by rewrite Hs at 1.
Qed.

Lemma trimEnd_no_trailing_white (s pre : string) (c : ascii) :
  Js.trimEnd s = pre +:+ String c "" → Js.isWhiteSpace c = false.
Proof.
  revert pre. induction s as [|a s IH]; intros pre; simpl.
  - by destruct pre.
  - destruct (Js.trimEnd s) as [|d t] eqn:E.
    + destruct (Js.isWhiteSpace a) eqn:Ha; [by destruct pre|].
      destruct pre as [|b [|]]; [by intros [= <-] | done | done].
    + destruct pre as [|b pre]; [done|].
      intros [= <- H]. by apply (IH pre).
Qed.

(** The trimmed form is empty exactly when every code unit is white. *)
Lemma trim_empty_iff (s : string) : Js.trim s = "" ↔ Js.allWhite s = true.
Proof.
  unfold Js.trim. by rewrite trimEnd_empty_iff, allWhite_trimStart.
Qed.

Lemma truthy_false_iff (s : string) : Js.truthy s = false ↔ s = "".
Proof.
  unfold Js.truthy. rewrite negb_false_iff. apply String.eqb_eq.
Qed.

Lemma truthy_true_iff (s : string) : Js.truthy s = true ↔ s ≠ "".
Proof.
  unfold Js.truthy. rewrite negb_true_iff. apply String.eqb_neq.
Qed.

(** ** The rendering engine *)

(** C10: for every input whose trimmed form is empty, [renderPlantUml]
    rejects with the message "Empty PlantUML code", no request having been
    issued to the backend; it returns an SVG for no such input. *)
Theorem renderPlantUml_empty_rejects
    (encode : string → string) (fetch : string → Render.FetchOutcome)
    (code : string) :
  Js.trim code = "" →
  Render.renderPlantUml encode fetch code
    = ([], Render.Rejected "Empty PlantUML code")
  ∧ ∀ svg, (Render.renderPlantUml encode fetch code).2
           ≠ Render.Fulfilled svg.
Proof.
  intros Hblank.
  assert (Render.renderPlantUml encode fetch code
          = ([], Render.Rejected "Empty PlantUML code")) as ->.
  { unfold Render.renderPlantUml.
    by rewrite (proj2 (truthy_false_iff _) Hblank). }
  split; [done | intros svg; discriminate].
Qed.

Lemma renderPlantUml_empty_rejects_witness :
  Js.trim (" " +:+ Js.nl) = ""
  ∧ Render.renderPlantUml id
      (fun _ => Render.Responded
                  (Render.mkResponse true 200 "OK" (Render.Fulfilled "<svg/>")))
      (" " +:+ Js.nl)
    = ([], Render.Rejected "Empty PlantUML code").
Proof.
  split; [reflexivity|].
  apply (renderPlantUml_empty_rejects id _ (" " +:+ Js.nl)). reflexivity.
Defined.

(** ** The change log *)

Lemma add_snoc_edit (log : ChangeLog.t) (s1 s2 : string) :
  ChangeLog.add (ChangeLog.Edit s2) (log ++ [ChangeLog.Edit s1])
  = log ++ [ChangeLog.Edit s2].
Proof.
  unfold ChangeLog.add. rewrite last_snoc, length_app. simpl.
  rewrite insert_app_r_alt by lia.
  by replace (length log + 1 - 1 - length log) with 0 by lia.
Qed.

Lemma add_snoc_typeChange (log : ChangeLog.t) (o1 n1 o2 n2 : string) :
  ChangeLog.add (ChangeLog.TypeChange o2 n2)
                (log ++ [ChangeLog.TypeChange o1 n1])
  = log ++ [ChangeLog.TypeChange o1 n2].
Proof.
  unfold ChangeLog.add. rewrite last_snoc, length_app. simpl.
  rewrite insert_app_r_alt by lia.
  by replace (length log + 1 - 1 - length log) with 0 by lia.
Qed.

(** C5: [ChangeLog.add] coalesces adjacent entries of the same tag.  An
    [Edit] added right after an [Edit] replaces it, so only the latest
    summary is kept; a [TypeChange] added right after a [TypeChange]
    replaces it and keeps the [oldType] of the earlier entry.  The log built
    from TypeChange(sequence, class) and TypeChange(class, state) serializes
    to "1. Changed diagram type from sequence to state". *)
Theorem changeLog_add_coalesces :
  (∀ (log : ChangeLog.t) (s1 s2 : string),
     ChangeLog.add (ChangeLog.Edit s2) (log ++ [ChangeLog.Edit s1])
     = log ++ [ChangeLog.Edit s2])
  ∧ (∀ (log : ChangeLog.t) (o1 n1 o2 n2 : string),
       ChangeLog.add (ChangeLog.TypeChange o2 n2)
                     (log ++ [ChangeLog.TypeChange o1 n1])
       = log ++ [ChangeLog.TypeChange o1 n2])
  ∧ ChangeLog.serialize
      (ChangeLog.add (ChangeLog.TypeChange "class" "state")
         (ChangeLog.add (ChangeLog.TypeChange "sequence" "class")
            ChangeLog.empty))
    = "1. Changed diagram type from sequence to state".
Proof.
  split; [exact add_snoc_edit|].
  split; [exact add_snoc_typeChange|].
  reflexivity.
Qed.

(** Entries of different tags, and the first entry, are appended. *)
Lemma add_appends (log : ChangeLog.t) (c : ChangeLog.Change) :
  match c, last log with
  | ChangeLog.Edit _, Some (ChangeLog.Edit _) => False
  | ChangeLog.TypeChange _ _, Some (ChangeLog.TypeChange _ _) => False
  | _, _ => True
  end →
  ChangeLog.add c log = log ++ [c].
Proof.
  unfold ChangeLog.add.
  destruct c, (last log) as [[]|]; simpl; tauto.
Qed.

(** The example of the specification: three edits serialize like the last
    one alone. *)
Example changeLog_three_edits :
  ChangeLog.serialize
    (ChangeLog.add (ChangeLog.Edit "c")
       (ChangeLog.add (ChangeLog.Edit "b")
          (ChangeLog.add (ChangeLog.Edit "a") ChangeLog.empty)))
  = "1. Edited diagram code: c".
Proof. reflexivity. Qed.

(** ** The sync layer *)

(** C9: after [sendToAgent] with a connected app the change log is empty,
    whether [sendMessage] returned or threw; the call returns normally in
    both cases, and the message was handed to the channel once. *)
Theorem sendToAgent_clears_log
    (app : SyncLayer.McpApp) (plantUmlCode : string)
    (selectedElements : list string) (diagramType : string)
    (w : SyncLayer.World) :
  ∃ text,
    SyncLayer.sendToAgent (Some app) plantUmlCode selectedElements
      diagramType w
    = (SyncLayer.Returned tt,
       SyncLayer.mkWorld [] (SyncLayer.sendMessageCalls w ++ [text])).
Proof.
  eexists. unfold SyncLayer.sendToAgent.
  unfold mbind, SyncLayer.M_bind, SyncLayer.bind,
    SyncLayer.changeLog_serialize, SyncLayer.tryCatch,
    SyncLayer.app_sendMessage, SyncLayer.changeLog_clear, SyncLayer.ret.
  destruct (SyncLayer.sendMessage app _); reflexivity.
Qed.

(** The same holds of the last revision of [sendToAgent]. *)
Lemma sendToAgent_items_clears_log
    (app : SyncLayer.McpApp) (plantUmlCode : string)
    (selectedItems : list SyncLayer.SelectedItem) (diagramType : string)
    (w : SyncLayer.World) :
  ∃ text,
    SyncLayer.sendToAgent_items (Some app) plantUmlCode selectedItems
      diagramType w
    = (SyncLayer.Returned tt,
       SyncLayer.mkWorld [] (SyncLayer.sendMessageCalls w ++ [text])).
Proof.
  eexists. unfold SyncLayer.sendToAgent_items.
  unfold mbind, SyncLayer.M_bind, SyncLayer.bind,
    SyncLayer.changeLog_serialize, SyncLayer.tryCatch,
    SyncLayer.app_sendMessage, SyncLayer.changeLog_clear, SyncLayer.ret.
  destruct (SyncLayer.sendMessage app _); reflexivity.
Qed.

(** Without an app nothing happens: the log is kept. *)
Lemma sendToAgent_no_app (plantUmlCode : string)
    (selectedElements : list string) (diagramType : string)
    (w : SyncLayer.World) :
  SyncLayer.sendToAgent None plantUmlCode selectedElements diagramType w
  = (SyncLayer.Returned tt, w).
Proof. reflexivity. Qed.

(** ** The viewport *)

Section Viewport.
Local Open Scope Q_scope.

Lemma clampScale_bounds (x : Q) :
  (5 # 100) <= DiagramView.clampScale x ∧ DiagramView.clampScale x <= 5.
Proof.
  unfold DiagramView.clampScale. split.
  - apply Q.le_max_l.
  - apply Q.max_lub; [discriminate | apply Q.le_min_l].
Qed.

(** The clamp is the identity on the interval. *)
Lemma clampScale_id (x : Q) :
  (5 # 100) <= x → x <= 5 → DiagramView.clampScale x == x.
Proof.
  intros Hlo Hhi. unfold DiagramView.clampScale.
  rewrite (Q.min_r 5 x) by exact Hhi.
  by apply Q.max_r.
Qed.

Lemma fitToView_scale (wrapper : option DiagramView.DOMRect)
    (svgSize : DiagramView.Size) (v : DiagramView.View) :
  DiagramView.fitToView wrapper svgSize v = v
  ∨ DiagramView.scale (DiagramView.fitToView wrapper svgSize v) <= 1.
Proof.
  unfold DiagramView.fitToView.
  destruct wrapper as [wRect|]; [|by left].
  destruct (_ || _); [by left|].
  destruct (_ || _); [by left|].
  right. simpl. apply Q.le_min_r.
Qed.

(** C7, as the code has it: the wheel and, when the wrapper is there, the
    zoom buttons clamp the scale into [0.05, 5], whatever the scale was,
    the sizes and the pointer position; without the wrapper the buttons do
    nothing.  Fitting to the view, when the wrapper is there and no size
    is zero, sets the scale to min((W - 48) / w, (H - 48) / h, 1), which is
    at most 1 and has no lower clamp; otherwise it does nothing.  So from
    a scale in the interval it yields a scale of at most 5. *)
Theorem zoom_keeps_scale_in_range
    (rect : DiagramView.DOMRect) (svgSize : DiagramView.Size)
    (factor clientX clientY deltaY : Q) (v : DiagramView.View) :
  DiagramView.scaleInRange (DiagramView.zoomFromCenter (Some rect) factor v)
  ∧ DiagramView.scaleInRange (DiagramView.zoomIn (Some rect) v)
  ∧ DiagramView.scaleInRange (DiagramView.zoomOut (Some rect) v)
  ∧ DiagramView.scaleInRange
      (DiagramView.handleWheel rect clientX clientY deltaY v)
  ∧ DiagramView.zoomFromCenter None factor v = v
  ∧ (¬ DiagramView.w svgSize == 0 → ¬ DiagramView.h svgSize == 0 →
     ¬ DiagramView.width rect == 0 → ¬ DiagramView.height rect == 0 →
     DiagramView.scale (DiagramView.fitToView (Some rect) svgSize v)
     = Qmin (Qmin ((DiagramView.width rect - 48) / DiagramView.w svgSize)
                  ((DiagramView.height rect - 48) / DiagramView.h svgSize))
            1
     ∧ DiagramView.scale (DiagramView.fitToView (Some rect) svgSize v) <= 1)
  ∧ (DiagramView.w svgSize == 0 ∨ DiagramView.h svgSize == 0
     ∨ DiagramView.width rect == 0 ∨ DiagramView.height rect == 0 →
     DiagramView.fitToView (Some rect) svgSize v = v)
  ∧ DiagramView.fitToView None svgSize v = v
  ∧ (∀ wrapper,
       DiagramView.scaleInRange v →
       DiagramView.scale (DiagramView.fitToView wrapper svgSize v) <= 5).
Proof.
  do 4 (split; [apply clampScale_bounds|]).
  split; [reflexivity|].
  split.
  { intros Hw Hh HW HH. unfold DiagramView.fitToView.
    rewrite (proj1 (not_true_iff_false _) (fun H => Hw (Qeq_bool_eq _ _ H))).
    rewrite (proj1 (not_true_iff_false _) (fun H => Hh (Qeq_bool_eq _ _ H))).
    rewrite (proj1 (not_true_iff_false _) (fun H => HW (Qeq_bool_eq _ _ H))).
    rewrite (proj1 (not_true_iff_false _) (fun H => HH (Qeq_bool_eq _ _ H))).
    simpl. split; [reflexivity | apply Q.le_min_r]. }
  split.
  { intros Hz. unfold DiagramView.fitToView.
    destruct Hz as [Hz | [Hz | [Hz | Hz]]];
      apply Qeq_eq_bool in Hz; rewrite Hz; rewrite ?orb_true_r; simpl;
      try reflexivity;
      by destruct (Qeq_bool _ _ || Qeq_bool _ _). }
  split; [reflexivity|].
  intros wrapper Hv.
  destruct (fitToView_scale wrapper svgSize v) as [-> | H].
  - apply Hv.
  - eapply Qle_trans; [exact H | discriminate].
Qed.

Lemma zoom_keeps_scale_in_range_witness :
  let v := DiagramView.mkView (1 # 100) (DiagramView.mkPoint 0 0) in
  let rect := DiagramView.mkRect 0 0 448 448 in
  let svgSize := DiagramView.mkSize 12000 800 in
  ¬ DiagramView.scaleInRange v
  ∧ DiagramView.scaleInRange
      (DiagramView.handleWheel rect 200 200 (-100) v)
  ∧ DiagramView.scale (DiagramView.fitToView (Some rect) svgSize v)
    == 1 # 30.
Proof.
  intros v rect svgSize.
  destruct (zoom_keeps_scale_in_range rect svgSize 1 200 200 (-100) v)
    as (_ & _ & _ & Hwheel & _ & Hfit & _).
  split; [intros [Hlo _]; vm_compute in Hlo; by apply Hlo|].
  split; [exact Hwheel|].
  destruct Hfit as [-> _]; [discriminate | discriminate | discriminate
                           | discriminate |].
  reflexivity.
Defined.

(** The interval is not kept by [fitToView]: a diagram 12000 wide in a
    viewport 448 wide is fitted at scale 1/30, below 0.05. *)
Lemma fitToView_leaves_range :
  let v := DiagramView.mkView 1 (DiagramView.mkPoint 0 0) in
  let v' :=
    DiagramView.fitToView (Some (DiagramView.mkRect 0 0 448 448))
      (DiagramView.mkSize 12000 800) v in
  DiagramView.scaleInRange v ∧ ¬ DiagramView.scaleInRange v'.
Proof.
  split.
  - split; discriminate.
  - intros [Hlo _]. vm_compute in Hlo. by apply Hlo.
Qed.

End Viewport.

(** ** The render scheduler *)

(** Case analysis on the tests of a handler. *)
Ltac handler_cases :=
  repeat match goal with
    | |- context [match ?x with _ => _ end] =>
        lazymatch x with
        | context [match _ with _ => _ end] => fail
        | _ => destruct x eqn:?
        end
    end.

Ltac unfold_handlers :=
  unfold App.step, App.handleCodeChange, App.ontoolinput,
    App.ontoolinputpartial, App.commit, App.codeEffect, App.codeCleanup,
    App.streamingEffect, App.streamingCleanup, App.scheduleRender,
    App.tick, App.fireStreamingInterval, App.fireErrorFixTimer,
    App.fireRenderTimer, App.errorFixCallback, App.doRender_resume,
    App.scheduleErrorAutoFix, App.doRender, App.doRender_call.

(** *** Selection *)

(** C6, as the code has it: leaving selection mode empties the selection;
    the tool-input handlers replace the document, clear the change log and
    leave the selection as it is. *)
Theorem selection_cleared_on_mode_exit_only :
  (∀ s : App.AppState,
     App.toggleSelectionMode true s
     = (false, App.set_selectedElements [] s))
  ∧ (∀ s : App.AppState,
       App.selectedElements (App.toggleSelectionMode true s).2 = [])
  ∧ (∀ (a : option string) (s : App.AppState),
       App.selectedElements (App.ontoolinput a s) = App.selectedElements s
       ∧ App.plantUmlCode (App.ontoolinput a s) = default "" a
       ∧ App.changeLog (App.ontoolinput a s) = [])
  ∧ (∀ (a : option string) (s : App.AppState),
       App.selectedElements (App.ontoolinputpartial a s)
       = App.selectedElements s).
Proof.
  split; [done|]. split; [done|]. split.
  - intros a s. unfold_handlers. simpl.
    repeat split; handler_cases; reflexivity.
  - intros a s. unfold_handlers. simpl. handler_cases; reflexivity.
Qed.

(** The tool-input handler does not clear the selection: an element
    selected before the document is replaced is still selected afterwards. *)
Lemma ontoolinput_keeps_selection :
  let s :=
    App.set_selectedElements ["Alice"]
      (App.mount (SyncLayer.mkMcpApp (fun _ => None))) in
  let s' :=
    App.ontoolinput (Some ("@startuml" +:+ Js.nl +:+ "Bob -> Carol"
                           +:+ Js.nl +:+ "@enduml")) s in
  App.selectedElements s' = ["Alice"] ∧ App.selectedElements s' ≠ [].
Proof. split; [reflexivity | discriminate]. Qed.

(** *** Versions *)

Lemma resume_stale (p : App.Pending) (r : App.RenderResult)
    (s : App.AppState) :
  App.p_version p ≠ App.renderVersion s → App.doRender_resume p r s = s.
Proof.
  intros Hne%Nat.eqb_neq. unfold App.doRender_resume.
  destruct r; rewrite Hne; simpl; by rewrite Hne.
Qed.

Lemma renderVersion_doRender (code : string) (m : bool) (s : App.AppState) :
  App.renderVersion (App.doRender code m s) = S (App.renderVersion s).
Proof. unfold_handlers. by destruct m. Qed.

Lemma renderVersion_resume (p : App.Pending) (r : App.RenderResult)
    (s : App.AppState) :
  App.renderVersion (App.doRender_resume p r s) = App.renderVersion s.
Proof. unfold_handlers. handler_cases; reflexivity. Qed.

Lemma renderVersion_commit (prev s : App.AppState) :
  App.renderVersion s ≤ App.renderVersion (App.commit prev s).
Proof. unfold_handlers. handler_cases; simpl; lia. Qed.

Lemma renderVersion_fireRenderTimer (s : App.AppState) :
  App.renderVersion s ≤ App.renderVersion (App.fireRenderTimer s).
Proof.
  unfold App.fireRenderTimer. handler_cases; try done.
  rewrite renderVersion_doRender. simpl. lia.
Qed.

Lemma renderVersion_fireErrorFixTimer (s : App.AppState) :
  App.renderVersion (App.fireErrorFixTimer s) = App.renderVersion s.
Proof.
  unfold App.fireErrorFixTimer, App.errorFixCallback.
  handler_cases; reflexivity.
Qed.

Lemma renderVersion_fireStreamingInterval (s : App.AppState) :
  App.renderVersion s ≤ App.renderVersion (App.fireStreamingInterval s).
Proof.
  unfold App.fireStreamingInterval. handler_cases; try done.
  rewrite renderVersion_doRender. simpl. lia.
Qed.

Lemma renderVersion_tick (s : App.AppState) :
  App.renderVersion s ≤ App.renderVersion (App.tick s).
Proof.
  unfold App.tick.
  etrans; [|apply renderVersion_fireRenderTimer].
  etrans; [|apply renderVersion_fireStreamingInterval].
  by rewrite renderVersion_fireErrorFixTimer.
Qed.

Lemma renderVersion_elapse (ms : nat) (s : App.AppState) :
  App.renderVersion s ≤ App.renderVersion (App.elapse ms s).
Proof.
  induction ms as [|ms IH]; simpl; [done|].
  etrans; [exact IH | apply renderVersion_tick].
Qed.

Lemma renderVersion_step (s : App.AppState) (e : App.Event) :
  App.renderVersion s ≤ App.renderVersion (App.step s e).
Proof.
  destruct e as [c|a|a|p r|ms]; simpl.
  - unfold App.handleCodeChange.
    etrans; [|apply renderVersion_commit]. done.
  - unfold App.ontoolinput.
    etrans; [|apply renderVersion_commit]. done.
  - unfold App.ontoolinputpartial. handler_cases; try done.
    etrans; [|apply renderVersion_commit]. done.
  - by rewrite renderVersion_resume.
  - apply renderVersion_elapse.
Qed.

(** The version counter never decreases. *)
Lemma renderVersion_run (es : list App.Event) (s : App.AppState) :
  App.renderVersion s ≤ App.renderVersion (App.run es s).
Proof.
  revert s. induction es as [|e es IH]; intros s; simpl; [done|].
  etrans; [apply (renderVersion_step s e) | apply IH].
Qed.

Lemma doRender_call_version (code : string) (m : bool) (s : App.AppState) :
  App.p_version (App.doRender_call code m s).2 = S (App.renderVersion s)
  ∧ App.renderVersion (App.doRender_call code m s).1
    = S (App.renderVersion s).
Proof. unfold App.doRender_call. by destruct m. Qed.

(** What a fresh response of a render that is not streaming leaves in the
    render state. *)
Lemma resume_fresh_applied (p : App.Pending) (r : App.RenderResult)
    (s : App.AppState) :
  App.p_version p = App.renderVersion s →
  App.p_isStreaming p = false →
  let s' := App.doRender_resume p r s in
  App.renderLoading s' = false
  ∧ match r with
    | App.Svg svg =>
        App.svgContent s' = Some svg
        ∧ App.renderError s'
          = if Render.isSvgError svg
            then Some "PlantUML syntax error" else None
    | App.Failed msg =>
        App.svgContent s' = App.svgContent s
        ∧ App.renderError s' = Some msg
    end.
Proof.
  intros Hv Hm. unfold App.doRender_resume, App.scheduleErrorAutoFix.
  rewrite Hm, Hv, Nat.eqb_refl. simpl.
  destruct r as [svg|msg]; [destruct (Render.isSvgError svg)|];
    simpl; rewrite Nat.eqb_refl; done.
Qed.

(** A response to a streaming render. *)
Lemma resume_streaming (p : App.Pending) (r : App.RenderResult)
    (s : App.AppState) :
  App.p_isStreaming p = true →
  App.doRender_resume p r s
  = match r with
    | App.Failed _ => s
    | App.Svg svg =>
        if Render.isSvgError svg then s
        else if App.p_version p =? App.renderVersion s
        then App.set_renderError None (App.set_svgContent (Some svg) s)
        else s
    end.
Proof.
  intros H. unfold App.doRender_resume. rewrite H.
  destruct (App.p_version p =? App.renderVersion s) eqn:E;
    destruct r as [svg|msg]; try destruct (Render.isSvgError svg);
    cbn [negb]; rewrite ?andb_false_r; reflexivity.
Qed.

(** C1: of two render attempts, the first issued before the second and
    settling after it, only the second one's result reaches the render
    state.  The first captured a strictly smaller version; when its
    response arrives the counter has moved on, and the response is
    discarded without changing anything, whatever happened in between
    ([es1], [es2], [es3]).  When the second response is the first thing to
    happen after its call, the state ([svgContent], [renderError],
    [renderLoading]) is the one that response alone determines. *)
Theorem stale_render_response_discarded
    (s : App.AppState) (code1 code2 : string) (streaming1 streaming2 : bool)
    (r1 r2 : App.RenderResult) (es1 es2 es3 : list App.Event) :
  let first := App.doRender_call code1 streaming1 s in
  let second := App.doRender_call code2 streaming2 (App.run es1 first.1) in
  let s3 := App.doRender_resume second.2 r2 (App.run es2 second.1) in
  let s4 := App.run es3 s3 in
  let direct :=
    App.doRender_resume first.2 r1
      (App.doRender_resume second.2 r2 second.1) in
  App.p_version first.2 < App.p_version second.2
  ∧ App.doRender_resume first.2 r1 s4 = s4
  ∧ (∀ (p : App.Pending) (r : App.RenderResult) (s' : App.AppState),
       App.p_version p ≠ App.renderVersion s' →
       App.doRender_resume p r s' = s')
  ∧ direct = App.doRender_resume second.2 r2 second.1
  ∧ if streaming2 then
      direct
      = match r2 with
        | App.Svg svg =>
            if Render.isSvgError svg then second.1
            else App.set_renderError None
                   (App.set_svgContent (Some svg) second.1)
        | App.Failed _ => second.1
        end
    else
      App.renderLoading direct = false
      ∧ match r2 with
        | App.Svg svg =>
            App.svgContent direct = Some svg
            ∧ App.renderError direct
              = if Render.isSvgError svg
                then Some "PlantUML syntax error" else None
        | App.Failed msg =>
            App.svgContent direct = App.svgContent second.1
            ∧ App.renderError direct = Some msg
        end.
Proof.
  intros first second s3 s4 direct.
  destruct (doRender_call_version code1 streaming1 s) as [Hp1 Hv1].
  destruct (doRender_call_version code2 streaming2 (App.run es1 first.1))
    as [Hp2 Hv2].
  fold first in Hp1, Hv1. fold second in Hp2, Hv2.
  pose proof (renderVersion_run es1 first.1) as H1.
  pose proof (renderVersion_run es2 second.1) as H2.
  pose proof (renderVersion_run es3 s3) as H3.
  fold s4 in H3. unfold s3 in H3. rewrite renderVersion_resume in H3.
  assert (direct = App.doRender_resume second.2 r2 second.1) as Hdirect.
  { apply resume_stale. rewrite renderVersion_resume. lia. }
  split; [lia|]. split; [apply resume_stale; lia|].
  split; [exact resume_stale|]. split; [exact Hdirect|].
  rewrite Hdirect.
  assert (App.p_version second.2 = App.renderVersion second.1) as Hfresh
    by congruence.
  assert (App.p_isStreaming second.2 = streaming2) as Hmode by done.
  destruct streaming2.
  - rewrite (resume_streaming _ _ _ Hmode), Hfresh, Nat.eqb_refl.
    reflexivity.
  - exact (resume_fresh_applied _ r2 _ Hfresh Hmode).
Qed.

(** *** Streaming renders *)

(** C2: a render in streaming mode whose response is classified as
    error-bearing, or whose backend call fails, leaves the displayed SVG and
    the visible error as they were: issuing it touches neither, and such a
    response changes nothing at all.  Only a response that is not
    error-bearing (and not stale) replaces the SVG and clears the error. *)
Theorem streaming_render_keeps_last_good
    (code : string) (s : App.AppState) (es : list App.Event)
    (r : App.RenderResult) :
  let issued := App.doRender_call code true s in
  let s2 := App.run es issued.1 in
  let s3 := App.doRender_resume issued.2 r s2 in
  (App.svgContent issued.1 = App.svgContent s
   ∧ App.renderError issued.1 = App.renderError s
   ∧ App.renderLoading issued.1 = App.renderLoading s)
  ∧ match r with
    | App.Failed _ => s3 = s2
    | App.Svg svg =>
        if Render.isSvgError svg then s3 = s2
        else if App.p_version issued.2 =? App.renderVersion s2
        then s3 = App.set_renderError None
                    (App.set_svgContent (Some svg) s2)
        else s3 = s2
    end.
Proof.
  intros issued s2 s3. split; [done|].
  unfold s3. rewrite resume_streaming by reflexivity.
  destruct r as [svg|msg]; [|reflexivity].
  destruct (Render.isSvgError svg); [reflexivity|].
  destruct (_ =? _); reflexivity.
Qed.

(** ** The streaming repair *)

Lemma sapp_nil_l (s : string) : "" +:+ s = s.
Proof. reflexivity. Qed.

Lemma sapp_cons (c : ascii) (s t : string) :
  String c s +:+ t = String c (s +:+ t).
Proof. reflexivity. Qed.

Lemma sapp_nil_r (s : string) : s +:+ "" = s.
Proof. induction s as [|c s IH]; [done|]. by rewrite sapp_cons, IH. Qed.

Lemma sapp_assoc (a b c : string) : (a +:+ b) +:+ c = a +:+ (b +:+ c).
Proof.
  induction a as [|x a IH]; [done|]. by rewrite !sapp_cons, IH.
Qed.

Lemma ciPrefix_split (p s r : string) :
  Js.ciPrefix p s = Some r →
  ∃ m, s = m +:+ r ∧ Js.ciPrefix p m = Some "".
Proof.
  revert s. induction p as [|a p IH]; intros s; simpl.
  - intros [= ->]. by exists "".
  - destruct s as [|b s]; [done|].
    destruct (Js.ciEq a b) eqn:E; [|done].
    intros (m & -> & Hm)%IH. exists (String b m). simpl. by rewrite E.
Qed.

Lemma ciPrefix_extend (p s r t : string) :
  Js.ciPrefix p s = Some r → Js.ciPrefix p (s +:+ t) = Some (r +:+ t).
Proof.
  revert s. induction p as [|a p IH]; intros s; simpl.
  - by intros [= ->].
  - destruct s as [|b s]; [done|]. rewrite sapp_cons.
    destruct (Js.ciEq a b); [apply IH | done].
Qed.

Lemma ciPrefix_app (p q s : string) :
  Js.ciPrefix (p +:+ q) s = Js.ciPrefix p s ≫= Js.ciPrefix q.
Proof.
  revert s. induction p as [|a p IH]; intros s; [done|].
  rewrite sapp_cons. simpl. destruct s as [|b s]; [done|].
  destruct (Js.ciEq a b); [apply IH | done].
Qed.

Lemma search_Some_split {A} (f : string → option A) (s : string) (x : A) :
  Js.search f s = Some x →
  ∃ pre suf,
    s = pre +:+ suf ∧ f suf = Some x
    ∧ ∀ pre1 pre2, pre = pre1 +:+ pre2 → pre2 ≠ "" →
                   f (pre2 +:+ suf) = None.
Proof.
  induction s as [|c s IH]; simpl.
  - destruct (f "") eqn:E; [|done]. intros [= ->].
    exists "", "". repeat split; [done|].
    intros [|] [|]; done.
  - destruct (f (String c s)) eqn:E.
    + intros [= ->]. exists "", (String c s). repeat split; [done|].
      intros [|] [|]; done.
    + intros (pre & suf & -> & Hf & Hbefore)%IH.
      exists (String c pre), suf. repeat split; [done|].
      intros [|d pre1] pre2 Heq Hne.
      * rewrite sapp_nil_l in Heq. subst pre2. by rewrite sapp_cons.
      * rewrite sapp_cons in Heq. injection Heq as -> ->.
        by eapply Hbefore.
Qed.

Lemma search_None_all {A} (f : string → option A) (s : string) :
  Js.search f s = None → ∀ pre suf, s = pre +:+ suf → f suf = None.
Proof.
  induction s as [|c s IH]; simpl.
  - destruct (f "") eqn:E; [done|]. intros _ [|] [|]; done.
  - destruct (f (String c s)) eqn:E; [done|].
    intros Hs [|d pre] suf.
    + rewrite sapp_nil_l. by intros <-.
    + rewrite sapp_cons. intros [= -> ->]. by eapply IH.
Qed.

Lemma search_found {A} (f : string → option A) (pre suf : string) (x : A) :
  f suf = Some x → is_Some (Js.search f (pre +:+ suf)).
Proof.
  intros Hf. induction pre as [|c pre IH].
  - rewrite sapp_nil_l. destruct suf; simpl; rewrite Hf; by eexists.
  - rewrite sapp_cons. simpl.
    destruct (f (String c (pre +:+ suf))); [by eexists | exact IH].
Qed.

(** The first regular expression says what the specification says. *)
Lemma endMarkerAt_spec (t : string) :
  App.endMarkerAt t = Some tt ↔
  ∃ m ws kind,
    t = m +:+ ws ∧ kind ∈ App.END_KINDS
    ∧ Js.ciPrefix ("@end" +:+ kind) m = Some "" ∧ Js.allWhite ws = true.
Proof.
  unfold App.endMarkerAt. split.
  - destruct (Js.ciPrefix "@end" t) as [r|] eqn:E; [|done].
    destruct (existsb _ _) eqn:Ex; [|done]. intros _.
    apply existsb_exists in Ex as (kind & Hin & Hk).
    destruct (Js.ciPrefix kind r) as [r'|] eqn:Ek; [|done].
    apply ciPrefix_split in E as (m1 & -> & Hm1).
    apply ciPrefix_split in Ek as (m2 & -> & Hm2).
    exists (m1 +:+ m2), r', kind. rewrite sapp_assoc.
    repeat split; [by apply list_elem_of_In | | done].
    rewrite ciPrefix_app.
    rewrite (ciPrefix_extend _ _ _ m2 Hm1). simpl. by rewrite sapp_nil_l.
  - intros (m & ws & kind & -> & Hin & Hm & Hws).
    rewrite ciPrefix_app in Hm.
    destruct (Js.ciPrefix "@end" m) as [r0|] eqn:E0; [|done]. simpl in Hm.
    rewrite (ciPrefix_extend _ _ _ ws E0).
    assert (existsb
              (fun k => match Js.ciPrefix k (r0 +:+ ws) with
                        | Some r' => Js.allWhite r'
                        | None => false
                        end) App.END_KINDS = true) as ->; [|done].
    apply existsb_exists. exists kind.
    split; [by apply list_elem_of_In|].
    by rewrite (ciPrefix_extend _ _ _ ws Hm), sapp_nil_l.
Qed.

Lemma endMarkerRe_spec (t : string) :
  App.endMarkerRe t = true ↔ App.EndsWithClosingMarker t.
Proof.
  unfold App.endMarkerRe, App.EndsWithClosingMarker. split.
  - destruct (Js.search App.endMarkerAt t) as [[]|] eqn:E; [|done].
    intros _. apply search_Some_split in E as (pre & suf & -> & Hs & _).
    apply endMarkerAt_spec in Hs as (m & ws & kind & -> & ?).
    by exists pre, m, ws, kind.
  - intros (pre & m & ws & kind & -> & H).
    assert (App.endMarkerAt (m +:+ ws) = Some tt) as Hs.
    { apply endMarkerAt_spec. by exists m, ws, kind. }
    by destruct (search_found _ pre _ _ Hs) as [x ->].
Qed.

Lemma search_first {A} (f : string → option A) (pre suf : string) (x : A) :
  (∀ pre1 pre2, pre = pre1 +:+ pre2 → pre2 ≠ "" → f (pre2 +:+ suf) = None) →
  f suf = Some x →
  Js.search f (pre +:+ suf) = Some x.
Proof.
  intros Hbefore Hf. induction pre as [|c pre IH].
  - rewrite sapp_nil_l. destruct suf; simpl; by rewrite Hf.
  - rewrite sapp_cons. simpl.
    rewrite <- sapp_cons, (Hbefore "" (String c pre)) by done.
    apply IH. intros pre1 pre2 -> Hne.
    by apply (Hbefore (String c pre1) pre2).
Qed.

Lemma takeWord_split (r : string) :
  ∃ rest,
    r = Js.takeWord r +:+ rest
    ∧ App.allWord (Js.takeWord r) = true
    ∧ match rest with
      | "" => True
      | String c _ => Js.isWordChar c = false
      end.
Proof.
  induction r as [|c r (rest & Hr & Hw & Hstop)]; simpl.
  - by exists "".
  - destruct (Js.isWordChar c) eqn:E.
    + exists rest. rewrite sapp_cons, <- Hr. simpl. by rewrite E, Hw.
    + exists (String c r). by rewrite sapp_nil_l.
Qed.

Lemma takeWord_run (kind rest : string) :
  App.allWord kind = true →
  match rest with
  | "" => True
  | String c _ => Js.isWordChar c = false
  end →
  Js.takeWord (kind +:+ rest) = kind.
Proof.
  intros Hw Hstop. induction kind as [|c kind IH].
  - rewrite sapp_nil_l. destruct rest; simpl; [done|]. by rewrite Hstop.
  - simpl in Hw. apply andb_true_iff in Hw as [Hc Hw].
    rewrite sapp_cons. simpl. by rewrite Hc, IH.
Qed.

Lemma startAt_sound (u kind : string) :
  App.startAt u = Some kind →
  ∃ a rest,
    u = a +:+ kind +:+ rest
    ∧ Js.ciPrefix "@start" a = Some ""
    ∧ kind ≠ ""
    ∧ App.allWord kind = true
    ∧ match rest with
      | "" => True
      | String c _ => Js.isWordChar c = false
      end.
Proof.
  unfold App.startAt.
  destruct (Js.ciPrefix "@start" u) as [r|] eqn:E; [|done].
  apply ciPrefix_split in E as (a & -> & Ha).
  destruct (takeWord_split r) as (rest & Hr & Hw & Hstop).
  destruct (Js.takeWord r) as [|c k] eqn:Ek; [done|].
  intros [= <-]. exists a, rest. by rewrite <- Hr.
Qed.

Lemma startAt_complete (a kind rest : string) :
  Js.ciPrefix "@start" a = Some "" →
  kind ≠ "" →
  App.allWord kind = true →
  match rest with
  | "" => True
  | String c _ => Js.isWordChar c = false
  end →
  App.startAt (a +:+ kind +:+ rest) = Some kind.
Proof.
  intros Ha Hne Hw Hstop. unfold App.startAt.
  rewrite (ciPrefix_extend _ _ _ _ Ha), sapp_nil_l.
  rewrite (takeWord_run _ _ Hw Hstop). by destruct kind.
Qed.

Lemma startAt_None_iff (u : string) :
  App.startAt u = None ↔ ¬ App.OpenerAt u.
Proof.
  unfold App.startAt, App.OpenerAt. split.
  - intros Hnone (a & c & r & -> & Ha & Hc).
    rewrite (ciPrefix_extend _ _ _ _ Ha), sapp_nil_l in Hnone.
    simpl in Hnone. by rewrite Hc in Hnone.
  - intros Hno.
    destruct (Js.ciPrefix "@start" u) as [r|] eqn:E; [|done].
    apply ciPrefix_split in E as (a & -> & Ha).
    destruct r as [|c r]; [done|]. simpl.
    destruct (Js.isWordChar c) eqn:Ec; [|done].
    exfalso. apply Hno. by exists a, c, r.
Qed.

(** The second regular expression finds the first opener of the
    specification, and only that. *)
Lemma startMatch_spec (t kind : string) :
  App.startMatch t = Some kind ↔ App.FirstOpener t kind.
Proof.
  unfold App.startMatch, App.FirstOpener. split.
  - intros (pre & suf & -> & Hs & Hbefore)%search_Some_split.
    apply startAt_sound in Hs as (a & rest & -> & Ha & Hne & Hw & Hstop).
    exists pre, a, rest. repeat split; try done.
    intros pre1 pre2 Hpre Hpre2. apply startAt_None_iff. by eapply Hbefore.
  - intros (pre & a & rest & -> & Ha & Hne & Hw & Hstop & Hbefore).
    apply search_first; [|by apply startAt_complete].
    intros pre1 pre2 Hpre Hpre2. apply startAt_None_iff. by eapply Hbefore.
Qed.

Lemma startMatch_None_iff (t : string) :
  App.startMatch t = None ↔ App.NoOpener t.
Proof.
  unfold App.startMatch, App.NoOpener. split.
  - intros Hnone pre suf ->. apply startAt_None_iff.
    by eapply search_None_all.
  - intros Hno. destruct (Js.search App.startAt t) as [k|] eqn:E; [|done].
    apply search_Some_split in E as (pre & suf & -> & Hs & _).
    assert (App.startAt suf = None) as Hn.
    { apply startAt_None_iff. by eapply Hno. }
    congruence.
Qed.

(** C8: a streaming render of a text whose trimmed form does not end with
    a recognised closing marker hands to the backend the trimmed text, a
    line feed, and a synthesized closing tag: [@end] followed by the kind of
    the first [@start] opener of the text, or [@enduml] when the text has
    no opener.  A text opened by [@startsequence] gets [@endsequence]. *)
Theorem streaming_render_appends_closing_tag
    (code : string) (s : App.AppState) :
  App.endMarkerRe (Js.trimEnd code) = false →
  let issued := App.doRender_call code true s in
  let trimmed := Js.trimEnd code in
  ¬ App.EndsWithClosingMarker trimmed
  ∧ App.renderCalls issued.1 = App.renderCalls s ++ [issued.2]
  ∧ (∃ endTag,
       App.p_renderCode issued.2 = trimmed +:+ Js.nl +:+ endTag
       ∧ ((∃ kind, App.FirstOpener trimmed kind
                   ∧ endTag = "@end" +:+ kind)
          ∨ (App.NoOpener trimmed ∧ endTag = "@enduml")))
  ∧ App.repairStreaming ("@startsequence" +:+ Js.nl +:+ "Alice -> Bob")
    = "@startsequence" +:+ Js.nl +:+ "Alice -> Bob"
      +:+ Js.nl +:+ "@endsequence".
Proof.
  intros Hend issued trimmed. split.
  { intros H%endMarkerRe_spec. fold trimmed in Hend. congruence. }
  split; [by destruct s|].
  split; [|reflexivity].
  unfold issued, App.doRender_call, App.repairStreaming. simpl.
  fold trimmed. fold trimmed in Hend. rewrite Hend. simpl.
  destruct (App.startMatch trimmed) as [kind|] eqn:E.
  - exists ("@end" +:+ kind). split; [done|]. left. exists kind.
    split; [by apply startMatch_spec | done].
  - exists "@enduml". split; [done|]. right.
    split; [by apply startMatch_None_iff | done].
Qed.

Lemma streaming_render_appends_closing_tag_witness :
  let code := "@startuml" +:+ Js.nl +:+ "class A" +:+ Js.nl in
  let s := App.mount (SyncLayer.mkMcpApp (fun _ => None)) in
  App.endMarkerRe (Js.trimEnd code) = false
  ∧ ∃ endTag,
      App.p_renderCode (App.doRender_call code true s).2
      = Js.trimEnd code +:+ Js.nl +:+ endTag
      ∧ ((∃ kind, App.FirstOpener (Js.trimEnd code) kind
                  ∧ endTag = "@end" +:+ kind)
         ∨ (App.NoOpener (Js.trimEnd code) ∧ endTag = "@enduml")).
Proof.
  split; [reflexivity|].
  exact (proj1 (proj2 (proj2
           (streaming_render_appends_closing_tag
              ("@startuml" +:+ Js.nl +:+ "class A" +:+ Js.nl)
              (App.mount (SyncLayer.mkMcpApp (fun _ => None)))
              eq_refl)))).
Defined.

Lemma trimEnd_cons_nonwhite (c : ascii) (s : string) :
  Js.isWhiteSpace c = false →
  Js.trimEnd (String c s) = String c (Js.trimEnd s).
Proof. intros H. simpl. destruct (Js.trimEnd s); by rewrite ?H. Qed.

Lemma trimEnd_stops (rest : string) :
  match rest with
  | "" => True
  | String c _ => Js.isWordChar c = false
  end →
  match Js.trimEnd rest with
  | "" => True
  | String c _ => Js.isWordChar c = false
  end.
Proof.
  destruct rest as [|c r]; [done|]. intros Hc. simpl.
  destruct (Js.trimEnd r); [destruct (Js.isWhiteSpace c)|]; done.
Qed.

(** Any text that starts with [@startsequence], the word ending there, and
    lacks a closing marker gets [@endsequence]. *)
Lemma repair_startsequence (rest : string) :
  match rest with
  | "" => True
  | String c _ => Js.isWordChar c = false
  end →
  App.endMarkerRe (Js.trimEnd ("@startsequence" +:+ rest)) = false →
  App.repairStreaming ("@startsequence" +:+ rest)
  = Js.trimEnd ("@startsequence" +:+ rest) +:+ Js.nl +:+ "@endsequence".
Proof.
  intros Hstop Hend. unfold App.repairStreaming. rewrite Hend. simpl negb.
  cbv iota.
  assert (Js.trimEnd ("@startsequence" +:+ rest)
          = "" +:+ "@start" +:+ "sequence" +:+ Js.trimEnd rest) as Htrim.
  { rewrite !sapp_cons, !sapp_nil_l.
    by rewrite !trimEnd_cons_nonwhite by reflexivity. }
  assert (App.startMatch (Js.trimEnd ("@startsequence" +:+ rest))
          = Some "sequence") as ->; [|done].
  apply startMatch_spec. exists "", "@start", (Js.trimEnd rest).
  repeat split; try done.
  - by apply trimEnd_stops.
  - intros [|] [|]; done.
Qed.

(** ** Debounced renders *)

Lemma now_fireRenderTimer (s : App.AppState) :
  App.now (App.fireRenderTimer s) = App.now s.
Proof.
  unfold App.fireRenderTimer, App.doRender, App.doRender_call.
  handler_cases; reflexivity.
Qed.

Lemma now_fireErrorFixTimer (s : App.AppState) :
  App.now (App.fireErrorFixTimer s) = App.now s.
Proof.
  unfold App.fireErrorFixTimer, App.errorFixCallback.
  handler_cases; reflexivity.
Qed.

Lemma now_fireStreamingInterval (s : App.AppState) :
  App.now (App.fireStreamingInterval s) = App.now s.
Proof.
  unfold App.fireStreamingInterval, App.doRender, App.doRender_call.
  handler_cases; reflexivity.
Qed.

Lemma now_tick (s : App.AppState) : App.now (App.tick s) = S (App.now s).
Proof.
  unfold App.tick.
  by rewrite now_fireRenderTimer, now_fireStreamingInterval,
    now_fireErrorFixTimer.
Qed.

Lemma now_elapse (ms : nat) (s : App.AppState) :
  App.now (App.elapse ms s) = App.now s + ms.
Proof.
  unfold App.elapse. induction ms as [|ms IH]; simpl; [lia|].
  rewrite now_tick. lia.
Qed.

Lemma elapse_add (a b : nat) (s : App.AppState) :
  App.elapse (a + b) s = App.elapse a (App.elapse b s).
Proof. unfold App.elapse. by rewrite Nat.iter_add. Qed.

Lemma elapse_succ (ms : nat) (s : App.AppState) :
  App.elapse (S ms) s = App.tick (App.elapse ms s).
Proof. reflexivity. Qed.

(** The auto-fix timer does not touch the render side. *)
Lemma renderSide_fireErrorFixTimer (s : App.AppState) :
  App.renderSide (App.fireErrorFixTimer s) = App.renderSide s.
Proof. unfold_handlers. handler_cases; reflexivity. Qed.

(** What the two render timers do to the render side when they are looked
    at. *)
Lemma renderSide_fireStreamingInterval (s : App.AppState) :
  App.renderSide (App.fireStreamingInterval s)
  = match App.streamingRenderTimer s with
    | Some due =>
        if due <=? App.now s then
          (App.plantUmlCode s, App.streaming s, App.renderTimer s,
           Some (due + 2000), S (App.renderVersion s),
           App.renderCalls s
           ++ [App.mkPending (S (App.renderVersion s)) (App.plantUmlCode s)
                 (App.repairStreaming (App.plantUmlCode s)) true])
        else App.renderSide s
    | None => App.renderSide s
    end.
Proof.
  unfold App.fireStreamingInterval, App.doRender, App.doRender_call.
  handler_cases; reflexivity.
Qed.

Lemma renderSide_fireRenderTimer (s : App.AppState) :
  App.renderSide (App.fireRenderTimer s)
  = match App.renderTimer s with
    | Some (due, code) =>
        if due <=? App.now s then
          (App.plantUmlCode s, App.streaming s, None,
           App.streamingRenderTimer s, S (App.renderVersion s),
           App.renderCalls s
           ++ [App.mkPending (S (App.renderVersion s)) code code false])
        else App.renderSide s
    | None => App.renderSide s
    end.
Proof.
  unfold App.fireRenderTimer, App.doRender, App.doRender_call.
  handler_cases; reflexivity.
Qed.

(** The render side after the auto-fix timer has had its turn in a tick. *)
Lemma renderSide_tick_start (s : App.AppState) :
  let t := App.fireErrorFixTimer (App.set_now (S (App.now s)) s) in
  App.renderSide t = App.renderSide s ∧ App.now t = S (App.now s).
Proof.
  split.
  - by rewrite renderSide_fireErrorFixTimer.
  - by rewrite now_fireErrorFixTimer.
Qed.

(** A tick at which neither the render timer nor the interval is due
    leaves the render side alone. *)
Lemma renderSide_tick_idle (s : App.AppState) :
  match App.renderTimer s with
  | Some (due, _) => S (App.now s) < due
  | None => True
  end →
  match App.streamingRenderTimer s with
  | Some due => S (App.now s) < due
  | None => True
  end →
  App.renderSide (App.tick s) = App.renderSide s.
Proof.
  intros Hdue Hint. unfold App.tick.
  destruct (renderSide_tick_start s) as [Hside Hnow].
  set (t := App.fireErrorFixTimer (App.set_now (S (App.now s)) s)) in *.
  assert (App.renderSide (App.fireStreamingInterval t) = App.renderSide s)
    as Hu.
  { rewrite renderSide_fireStreamingInterval, Hnow, Hside.
    unfold App.renderSide in Hside. injection Hside as _ _ _ -> _ _.
    destruct (App.streamingRenderTimer s) as [due|]; [|done].
    by rewrite (proj2 (Nat.leb_gt _ _) Hint). }
  rewrite renderSide_fireRenderTimer, now_fireStreamingInterval, Hnow, Hu.
  unfold App.renderSide in Hu. injection Hu as _ _ -> _ _ _.
  destruct (App.renderTimer s) as [[due c]|]; [|done].
  by rewrite (proj2 (Nat.leb_gt _ _) Hdue).
Qed.

(** A tick with no render timer due and no streaming interval leaves the
    render side alone. *)
Lemma renderSide_tick_quiet (s : App.AppState) :
  match App.renderTimer s with
  | Some (due, _) => S (App.now s) < due
  | None => True
  end →
  App.streamingRenderTimer s = None →
  App.renderSide (App.tick s) = App.renderSide s.
Proof.
  intros Hdue Hint. apply renderSide_tick_idle; [done | by rewrite Hint].
Qed.

Lemma renderSide_elapse_quiet (ms : nat) (s : App.AppState) :
  match App.renderTimer s with
  | Some (due, _) => App.now s + ms < due
  | None => True
  end →
  App.streamingRenderTimer s = None →
  App.renderSide (App.elapse ms s) = App.renderSide s.
Proof.
  intros Hdue Hint. induction ms as [|ms IH]; [done|].
  rewrite elapse_succ.
  assert (App.renderSide (App.elapse ms s) = App.renderSide s) as Hs.
  { apply IH. destruct (App.renderTimer s) as [[due c]|]; [lia|done]. }
  rewrite <- Hs. unfold App.renderSide in Hs.
  apply renderSide_tick_quiet.
  - assert (App.renderTimer (App.elapse ms s) = App.renderTimer s) as ->
      by congruence.
    rewrite now_elapse.
    destruct (App.renderTimer s) as [[due c]|]; [lia|done].
  - congruence.
Qed.

(** The timer an edit leaves behind at time [t]. *)
Lemma renderSide_handleCodeChange (newCode : string) (s : App.AppState) :
  String.eqb (App.plantUmlCode s) newCode = false →
  App.renderSide (App.handleCodeChange newCode s)
  = (newCode, App.streaming s,
     if Js.truthy (Js.trim newCode)
     then Some (App.now s + 800, newCode) else None,
     App.streamingRenderTimer s, App.renderVersion s, App.renderCalls s)
  ∧ App.now (App.handleCodeChange newCode s) = App.now s.
Proof.
  intros Hne.
  unfold App.handleCodeChange, App.commit. simpl.
  rewrite Bool.eqb_reflx, Hne. simpl.
  unfold App.codeEffect, App.codeCleanup, App.scheduleRender. simpl.
  by destruct (Js.truthy (Js.trim newCode)).
Qed.

(** The tick at which the render timer is due issues the render. *)
Lemma renderSide_tick_fire (s : App.AppState) (due : nat) (code : string) :
  App.renderTimer s = Some (due, code) →
  due ≤ S (App.now s) →
  App.streamingRenderTimer s = None →
  App.renderSide (App.tick s)
  = (App.plantUmlCode s, App.streaming s, None, None,
     S (App.renderVersion s),
     App.renderCalls s
     ++ [App.mkPending (S (App.renderVersion s)) code code false]).
Proof.
  intros Htimer Hdue Hint. unfold App.tick.
  destruct (renderSide_tick_start s) as [Hside Hnow].
  set (t := App.fireErrorFixTimer (App.set_now (S (App.now s)) s)) in *.
  assert (App.renderSide (App.fireStreamingInterval t) = App.renderSide s)
    as Hu.
  { rewrite renderSide_fireStreamingInterval, Hside.
    unfold App.renderSide in Hside. injection Hside as _ _ _ -> _ _.
    by rewrite Hint. }
  rewrite renderSide_fireRenderTimer, now_fireStreamingInterval, Hnow.
  unfold App.renderSide in Hu. injection Hu as -> -> -> -> -> ->.
  by rewrite Htimer, (proj2 (Nat.leb_le _ _) Hdue), Hint.
Qed.

(** After an edit the render side is [armed]: the text is the edited one
    and the only pending render is the debounced one, when the text is not
    blank. *)
Lemma edits_keep_armed (rest : list (nat * string)) :
  ∀ (s : App.AppState) (code : string) (v : nat) (calls : list App.Pending),
    App.renderSide s
    = (code, false,
       if Js.truthy (Js.trim code) then Some (App.now s + 800, code)
       else None,
       None, v, calls) →
    App.gapsBelow 800 rest = true →
    App.editsChangeText code rest = true →
    let s' := App.edits rest s in
    let final := App.lastText code rest in
    App.renderSide s'
    = (final, false,
       if Js.truthy (Js.trim final) then Some (App.now s' + 800, final)
       else None,
       None, v, calls).
Proof.
  induction rest as [|[gap newCode] rest IH]; intros s code v calls Hs Hgaps
    Hchg; [exact Hs|].
  simpl in Hgaps, Hchg |- *.
  apply andb_true_iff in Hgaps as [Hgap%Nat.ltb_lt Hgaps].
  apply andb_true_iff in Hchg as [Hne%negb_true_iff Hchg].
  assert (App.renderSide (App.elapse gap s) = App.renderSide s) as Hquiet.
  { unfold App.renderSide in Hs.
    apply renderSide_elapse_quiet; [|congruence].
    assert (App.renderTimer s
            = if Js.truthy (Js.trim code)
              then Some (App.now s + 800, code) else None) as ->
      by congruence.
    destruct (Js.truthy _); [lia|done]. }
  rewrite Hs in Hquiet. unfold App.renderSide in Hquiet.
  destruct (renderSide_handleCodeChange newCode (App.elapse gap s))
    as [Hside Hnow].
  {
    assert (App.plantUmlCode (App.elapse gap s) = code) as -> by congruence.
    exact Hne. }
  apply IH; [|exact Hgaps|exact Hchg].
  rewrite Hside, Hnow. repeat f_equal; congruence.
Qed.

(** C3, as the code has it.  In a burst of edits, each changing the text
    and each less than 800 ms after the previous one, with no streaming
    session active, every edit cancels the pending debounce timer and, when
    the new text is not blank, starts a new timer of 800 ms.  So exactly one
    render is issued when the text of the last edit is not blank, 800 ms
    after that edit and with that text; none is issued when it is blank. *)
Theorem debounce_coalesces_burst
    (s : App.AppState) (first : string) (rest : list (nat * string))
    (wait : nat) :
  App.streaming s = false →
  App.streamingRenderTimer s = None →
  App.editsChangeText (App.plantUmlCode s) ((0, first) :: rest) = true →
  App.gapsBelow 800 rest = true →
  800 ≤ wait →
  let final := App.lastText first rest in
  let edited := App.edits ((0, first) :: rest) s in
  let s' := App.elapse wait edited in
  App.renderCalls edited = App.renderCalls s
  ∧ App.renderTimer edited
    = (if Js.truthy (Js.trim final)
       then Some (App.now edited + 800, final) else None)
  ∧ App.renderCalls s'
    = App.renderCalls s
      ++ (if Js.truthy (Js.trim final)
          then [App.mkPending (S (App.renderVersion s)) final final false]
          else [])
  ∧ App.renderTimer s' = None.
Proof.
  intros Hstr Hint Hchg Hgaps Hwait final edited s'.
  simpl in Hchg. apply andb_true_iff in Hchg as [Hne%negb_true_iff Hchg].
  destruct (renderSide_handleCodeChange first s Hne) as [Hside Hnow].
  rewrite Hstr, Hint in Hside.
  assert (App.renderSide edited
          = (final, false,
             if Js.truthy (Js.trim final)
             then Some (App.now edited + 800, final) else None,
             None, App.renderVersion s, App.renderCalls s)) as Hedited.
  { apply (edits_keep_armed rest (App.handleCodeChange first s) first);
      [|exact Hgaps|exact Hchg].
    by rewrite Hside, Hnow. }
  unfold App.renderSide in Hedited.
  split; [congruence|]. split; [congruence|].
  assert (App.renderSide s'
          = (final, false, None, None,
             (if Js.truthy (Js.trim final)
              then S (App.renderVersion s) else App.renderVersion s),
             App.renderCalls s
             ++ (if Js.truthy (Js.trim final)
                 then [App.mkPending (S (App.renderVersion s)) final final
                         false]
                 else []))) as Hfinal;
    [|unfold App.renderSide in Hfinal; split; congruence].
  unfold s'. destruct (Js.truthy (Js.trim final)) eqn:Htruthy.
  - replace wait with ((wait - 800) + S 799) by lia.
    rewrite elapse_add, elapse_succ.
    assert (App.renderSide (App.elapse 799 edited) = App.renderSide edited)
      as Hquiet.
    { apply renderSide_elapse_quiet; [|congruence].
      assert (App.renderTimer edited
              = Some (App.now edited + 800, final)) as -> by congruence.
      lia. }
    unfold App.renderSide in Hquiet.
    assert (App.renderSide (App.tick (App.elapse 799 edited))
            = (final, false, None, None, S (App.renderVersion s),
               App.renderCalls s
               ++ [App.mkPending (S (App.renderVersion s)) final final
                     false])) as Hfire.
    { rewrite (renderSide_tick_fire _ (App.now edited + 800) final);
        [| congruence | rewrite now_elapse; lia | congruence].
      congruence. }
    rewrite <- Hfire. apply renderSide_elapse_quiet.
    + unfold App.renderSide in Hfire.
      by assert (App.renderTimer (App.tick (App.elapse 799 edited)) = None)
        as -> by congruence.
    + unfold App.renderSide in Hfire. congruence.
  - rewrite app_nil_r.
    rewrite renderSide_elapse_quiet.
    + unfold App.renderSide. congruence.
    + by assert (App.renderTimer edited = None) as -> by congruence.
    + congruence.
Qed.

Lemma debounce_coalesces_burst_witness :
  let s := App.mount (SyncLayer.mkMcpApp (fun _ => None)) in
  let rest := [(120, "A -> B"); (700, "A -> B : hi")] in
  App.streaming s = false
  ∧ App.streamingRenderTimer s = None
  ∧ App.editsChangeText (App.plantUmlCode s) ((0, "A ->") :: rest) = true
  ∧ App.gapsBelow 800 rest = true
  ∧ 800 ≤ 800
  ∧ App.renderCalls (App.elapse 800 (App.edits ((0, "A ->") :: rest) s))
    = App.renderCalls s
      ++ [App.mkPending (S (App.renderVersion s)) "A -> B : hi"
            "A -> B : hi" false].
Proof.
  repeat (split; [reflexivity|]).
  apply (debounce_coalesces_burst
           (App.mount (SyncLayer.mkMcpApp (fun _ => None))) "A ->"
           [(120, "A -> B"); (700, "A -> B : hi")] 800);
    solve [reflexivity | lia].
Defined.

(** When the last edit leaves a blank text the pending timer is cancelled,
    none is started, and no render is issued at all. *)
Lemma debounce_blank_text_renders_nothing :
  let s := App.mount (SyncLayer.mkMcpApp (fun _ => None)) in
  let burst := [(0, "A -> B"); (300, "")] in
  let s' := App.elapse 2000 (App.edits burst s) in
  App.streaming s = false
  ∧ App.streamingRenderTimer s = None
  ∧ App.editsChangeText (App.plantUmlCode s) burst = true
  ∧ App.gapsBelow 800 burst = true
  ∧ App.renderCalls s' = App.renderCalls s
  ∧ length (App.renderCalls s') ≠ length (App.renderCalls s) + 1.
Proof.
  repeat (split; [vm_compute; reflexivity|]).
  vm_compute. lia.
Qed.

(** ** Error auto-fix *)
















(** * Further properties *)

(** ** The change log as a whole *)

Lemma sameTag_sym (a b : ChangeLog.Change) :
  ChangeLog.sameTag a b = ChangeLog.sameTag b a.
Proof. by destruct a, b. Qed.

Lemma coalesced_snoc (log : ChangeLog.t) (x : ChangeLog.Change) :
  ChangeLog.coalesced (log ++ [x])
  = ChangeLog.coalesced log
    && match last log with
       | Some y => negb (ChangeLog.sameTag y x)
       | None => true
       end.
Proof.
  induction log as [|a [|b log] IH]; [done | |].
  - simpl. by rewrite !andb_true_r.
  - change (ChangeLog.coalesced ((a :: b :: log) ++ [x]))
      with (negb (ChangeLog.sameTag a b)
            && ChangeLog.coalesced ((b :: log) ++ [x])).
    rewrite IH.
    change (ChangeLog.coalesced (a :: b :: log))
      with (negb (ChangeLog.sameTag a b) && ChangeLog.coalesced (b :: log)).
    change (last (a :: b :: log)) with (last (b :: log)).
    by rewrite andb_assoc.
Qed.

Lemma list_snoc_or_nil {A} (l : list A) :
  l = [] ∨ ∃ l' x, l = l' ++ [x].
Proof.
  induction l as [|a l IH] using rev_ind; [by left|]. right. eauto.
Qed.

(** What [add] does, by the last entry of the log. *)
Lemma add_cases (c : ChangeLog.Change) (log : ChangeLog.t) :
  (log = [] ∧ ChangeLog.add c log = [c])
  ∨ (∃ l y, log = l ++ [y] ∧ ChangeLog.sameTag y c = false
            ∧ ChangeLog.add c log = log ++ [c])
  ∨ (∃ l y c', log = l ++ [y] ∧ ChangeLog.sameTag y c = true
               ∧ ChangeLog.sameTag y c' = true
               ∧ ChangeLog.add c log = l ++ [c']).
Proof.
  destruct (list_snoc_or_nil log) as [-> | (l & y & ->)].
  - left. by destruct c.
  - right. destruct c as [s2|o2 n2], y as [s1|o1 n1].
    + right. exists l, (ChangeLog.Edit s1), (ChangeLog.Edit s2).
      by rewrite add_snoc_edit.
    + left. exists l, (ChangeLog.TypeChange o1 n1).
      repeat split. unfold ChangeLog.add. by rewrite last_snoc.
    + left. exists l, (ChangeLog.Edit s1).
      repeat split. unfold ChangeLog.add. by rewrite last_snoc.
    + right. exists l, (ChangeLog.TypeChange o1 n1),
        (ChangeLog.TypeChange o1 n2).
      by rewrite add_snoc_typeChange.
Qed.

Lemma sameTag_trans_l (y c c' : ChangeLog.Change) (z : ChangeLog.Change) :
  ChangeLog.sameTag y c' = true →
  ChangeLog.sameTag z c' = ChangeLog.sameTag z y.
Proof. by destruct y, c', z. Qed.

Lemma coalesced_add (c : ChangeLog.Change) (log : ChangeLog.t) :
  ChangeLog.coalesced log = true →
  ChangeLog.coalesced (ChangeLog.add c log) = true.
Proof.
  intros Hlog.
  destruct (add_cases c log)
    as [[-> ->] | [(l & y & -> & Hyc & ->) | (l & y & c' & -> & _ & Hyc' & ->)]].
  - done.
  - rewrite coalesced_snoc, Hlog, last_snoc. by rewrite Hyc.
  - rewrite coalesced_snoc in Hlog |- *.
    apply andb_true_iff in Hlog as [-> Hlast]. simpl.
    destruct (last l) as [z|]; [|done].
    by rewrite (sameTag_trans_l y c c' z Hyc').
Qed.

(** X1: However entries are added, no two neighbours of the log carry the same
    tag: the log alternates between edits and type changes. *)
Theorem changeLog_stays_coalesced
    (cs : list ChangeLog.Change) (log : ChangeLog.t) :
  ChangeLog.coalesced log = true →
  ChangeLog.coalesced (ChangeLog.addAll cs log) = true.
Proof.
  revert log. induction cs as [|c cs IH]; intros log Hlog; [done|].
  apply IH. by apply coalesced_add.
Qed.

Lemma changeLog_stays_coalesced_witness :
  let log := [ChangeLog.Edit "a"; ChangeLog.TypeChange "class" "state"] in
  let cs :=
    [ChangeLog.TypeChange "state" "sequence"; ChangeLog.Edit "b";
     ChangeLog.Edit "c"] in
  ChangeLog.coalesced log = true
  ∧ ChangeLog.coalesced (ChangeLog.addAll cs log) = true.
Proof.
  split; [reflexivity|].
  apply (changeLog_stays_coalesced
           [ChangeLog.TypeChange "state" "sequence"; ChangeLog.Edit "b";
            ChangeLog.Edit "c"]
           [ChangeLog.Edit "a"; ChangeLog.TypeChange "class" "state"]).
  reflexivity.
Defined.

Lemma addAll_cons (c : ChangeLog.Change) (cs : list ChangeLog.Change)
    (log : ChangeLog.t) :
  ChangeLog.addAll (c :: cs) log = ChangeLog.addAll cs (ChangeLog.add c log).
Proof. reflexivity. Qed.

(** X2: A run of edits leaves the last summary only; a run of type changes
    collapses to one entry from the first old type to the last new type. *)
Theorem changeLog_runs_collapse :
  (∀ (log : ChangeLog.t) (s : string) (summaries : list string),
     ChangeLog.addAll (ChangeLog.Edit <$> summaries)
       (log ++ [ChangeLog.Edit s])
     = log ++ [ChangeLog.Edit (default s (last summaries))])
  ∧ (∀ (log : ChangeLog.t) (o n : string) (flips : list (string * string)),
       ChangeLog.addAll
         ((fun f => ChangeLog.TypeChange f.1 f.2) <$> flips)
         (log ++ [ChangeLog.TypeChange o n])
       = log ++ [ChangeLog.TypeChange o (default n (last (snd <$> flips)))]).
Proof.
  split.
  - intros log s summaries. revert s.
    induction summaries as [|s' summaries IH]; intros s; [done|].
    rewrite fmap_cons, addAll_cons, add_snoc_edit, IH.
    rewrite last_cons. by destruct (last summaries).
  - intros log o n flips. revert n.
    induction flips as [|[o' n'] flips IH]; intros n; [done|].
    rewrite fmap_cons, addAll_cons, add_snoc_typeChange, IH.
    rewrite fmap_cons, last_cons. by destruct (last (snd <$> flips)).
Qed.

Lemma concat_nonempty (sep x : string) (xs : list string) :
  x ≠ "" → Js.join sep (x :: xs) ≠ "".
Proof.
  intros Hx. unfold Js.join. destruct xs as [|y ys]; simpl; [done|].
  destruct x; [done|]. discriminate.
Qed.

Lemma serializeEntry_nonempty (i : nat) (c : ChangeLog.Change) :
  ChangeLog.serializeEntry i c ≠ "".
Proof.
  unfold ChangeLog.serializeEntry.
  destruct c; destruct (Js.showNat (i + 1)); discriminate.
Qed.

Lemma serialize_empty_iff (log : ChangeLog.t) :
  ChangeLog.serialize log = "" ↔ log = [].
Proof.
  destruct log as [|c log]; [done|].
  split; [|done]. unfold ChangeLog.serialize. simpl.
  intros H. exfalso. revert H. apply concat_nonempty.
  apply serializeEntry_nonempty.
Qed.

(** X3: The serialized log is the empty string for the empty log only, and
    its numbering starts at 1. *)
Theorem changeLog_serialize_empty_iff (log : ChangeLog.t) :
  (ChangeLog.serialize log = "" ↔ log = [])
  ∧ (log ≠ [] → String.prefix "1." (ChangeLog.serialize log) = true).
Proof.
  split; [apply serialize_empty_iff|].
  destruct log as [|c log]; [done|].
  intros _. unfold ChangeLog.serialize, Js.join. simpl.
  destruct c; destruct (imap _ log); reflexivity.
Qed.

(** ** Selection with the pointer *)

Lemma Qltb_true_iff (a b : Q) : DiagramView.Qltb a b = true ↔ (a < b)%Q.
Proof.
  unfold DiagramView.Qltb. rewrite negb_true_iff. split.
  - intros H. apply Qnot_le_lt. intros Hle.
    apply Qle_bool_iff in Hle. congruence.
  - intros H. destruct (Qle_bool b a) eqn:E; [|done].
    apply Qle_bool_iff in E. by apply Qlt_not_le in H.
Qed.

Lemma Qltb_false_iff (a b : Q) : DiagramView.Qltb a b = false ↔ (b <= a)%Q.
Proof.
  unfold DiagramView.Qltb. rewrite negb_false_iff. apply Qle_bool_iff.
Qed.

(** The hit test is the overlap of the two rectangles. *)
Lemma elementIntersectsRect_iff
    (elRect : DiagramView.DOMRect) (box : DiagramView.Box)
    (wrapperRect : DiagramView.DOMRect) :
  DiagramView.elementIntersectsRect elRect box wrapperRect = true
  ↔ DiagramView.Overlaps elRect box wrapperRect.
Proof.
  unfold DiagramView.elementIntersectsRect, DiagramView.Overlaps.
  rewrite negb_true_iff, !orb_false_iff, !Qltb_false_iff. tauto.
Qed.

Lemma withLabels_ids (labelMap : gmap string string) (ids : list string) :
  SyncLayer.id <$> DiagramView.withLabels labelMap ids = ids.
Proof.
  unfold DiagramView.withLabels.
  induction ids as [|i ids IH]; [done|]. rewrite !fmap_cons. by f_equal.
Qed.

Lemma setToArray_fold (xs acc : list string) :
  NoDup acc →
  let r :=
    fold_left
      (fun acc x => if bool_decide (x ∈ acc) then acc else acc ++ [x])
      xs acc in
  NoDup r ∧ (∀ x, x ∈ r ↔ x ∈ acc ∨ x ∈ xs) ∧ acc `prefix_of` r.
Proof.
  revert acc. induction xs as [|x xs IH]; intros acc Hacc; simpl.
  - split; [done|]. split; [|done]. intros x. rewrite elem_of_nil. tauto.
  - destruct (bool_decide (x ∈ acc)) eqn:E.
    + apply bool_decide_eq_true in E.
      destruct (IH acc Hacc) as (Hnd & Hin & Hpre).
      split; [done|]. split; [|done].
      intros y. rewrite Hin, elem_of_cons.
      split; [tauto|]. intros [?|[->|?]]; auto.
    + apply bool_decide_eq_false in E.
      destruct (IH (acc ++ [x])) as (Hnd & Hin & Hpre).
      { apply NoDup_app. split; [done|]. split; [|apply NoDup_singleton].
        intros y Hy ->%list_elem_of_singleton. done. }
      split; [done|]. split.
      * intros y. rewrite Hin, elem_of_app, list_elem_of_singleton,
          elem_of_cons. tauto.
      * etrans; [|exact Hpre]. by apply prefix_app_r.
Qed.

Lemma setToArray_spec (xs : list string) :
  NoDup (DiagramView.setToArray xs)
  ∧ ∀ x, x ∈ DiagramView.setToArray xs ↔ x ∈ xs.
Proof.
  destruct (setToArray_fold xs [] (NoDup_nil_2)) as (Hnd & Hin & _).
  split; [exact Hnd|]. intros x. rewrite (Hin x), elem_of_nil. tauto.
Qed.

Lemma setToArray_fold_fresh (xs acc : list string) :
  NoDup (acc ++ xs) →
  fold_left
    (fun acc x => if bool_decide (x ∈ acc) then acc else acc ++ [x])
    xs acc = acc ++ xs.
Proof.
  revert acc. induction xs as [|x xs IH]; intros acc Hnd; simpl.
  - by rewrite app_nil_r.
  - rewrite bool_decide_false.
    + rewrite IH; [by rewrite <- app_assoc|]. by rewrite <- app_assoc.
    + apply NoDup_app in Hnd as (_ & Hdisj & _).
      intros Hx. apply (Hdisj x Hx). by left.
Qed.

(** Elements already in the list keep their place at the front. *)
Lemma setToArray_prefix (xs ys : list string) :
  NoDup xs → xs `prefix_of` DiagramView.setToArray (xs ++ ys).
Proof.
  intros Hxs. unfold DiagramView.setToArray. rewrite fold_left_app.
  rewrite (setToArray_fold_fresh xs []) by done. simpl.
  by destruct (setToArray_fold ys xs Hxs) as (_ & _ & Hpre).
Qed.

Lemma marqueeHits_iff (box : DiagramView.Box)
    (wrapperRect : DiagramView.DOMRect) (groups : list DiagramView.Group)
    (i : string) :
  i ∈ DiagramView.marqueeHits box wrapperRect groups
  ↔ ∃ g, g ∈ groups ∧ DiagramView.idAttr g = Some i
         ∧ String.prefix "_" i = false
         ∧ DiagramView.Overlaps (DiagramView.rect g) box wrapperRect.
Proof.
  unfold DiagramView.marqueeHits, DiagramView.selectable.
  rewrite list_elem_of_fmap. split.
  - intros (g & -> & Hg).
    apply list_elem_of_filter in Hg as [Hhit Hg].
    apply list_elem_of_filter in Hg as [Hsel Hg].
    exists g. unfold DiagramView.matchesSelector, DiagramView.groupId in *.
    destruct (DiagramView.idAttr g) as [id|]; [|done]. simpl.
    split; [done|]. split; [done|]. split; [by apply negb_true_iff|].
    by apply elementIntersectsRect_iff.
  - intros (g & Hg & Hid & Hpre & Hov). exists g.
    unfold DiagramView.groupId. rewrite Hid. split; [done|].
    apply list_elem_of_filter. split; [by apply elementIntersectsRect_iff|].
    apply list_elem_of_filter. split; [|done].
    unfold DiagramView.matchesSelector. by rewrite Hid, Hpre.
Qed.

(** X6: Releasing the button over a marquee more than 5 wide and 5 high selects
    by bounding box: the identifiers passed on are those of the groups
    with an [id] not starting with an underscore whose rectangle overlaps
    the marquee, in document order.  With shift held and a selection in
    place they are added to it, without duplicates, the earlier selection
    first.  The marquee is closed and the next click is marked for
    suppression. *)
Theorem marquee_selects_overlapping_groups
    (labelMap : gmap string string) (selected : list string)
    (wrapperRect : DiagramView.DOMRect) (groups : list DiagramView.Group)
    (shiftKey : bool) (m : DiagramView.Marquee) (p : DiagramView.Pointer) :
  DiagramView.marquee p = Some m →
  DiagramView.active m = true →
  (5 < DiagramView.box_w (DiagramView.marqueeBox m))%Q →
  (5 < DiagramView.box_h (DiagramView.marqueeBox m))%Q →
  let out :=
    DiagramView.handleMouseUp labelMap selected (Some wrapperRect) true
      (Some groups) shiftKey p in
  let hits :=
    DiagramView.marqueeHits (DiagramView.marqueeBox m) wrapperRect groups in
  DiagramView.marquee out.1 = None
  ∧ DiagramView.marqueeJustFinished out.1 = true
  ∧ (∀ i, i ∈ hits
          ↔ ∃ g, g ∈ groups ∧ DiagramView.idAttr g = Some i
                 ∧ String.prefix "_" i = false
                 ∧ DiagramView.Overlaps (DiagramView.rect g)
                     (DiagramView.marqueeBox m) wrapperRect)
  ∧ ∃ items,
      out.2 = Some items
      ∧ if shiftKey && (0 <? length selected)
        then NoDup (SyncLayer.id <$> items)
             ∧ (∀ i, i ∈ SyncLayer.id <$> items ↔ i ∈ selected ∨ i ∈ hits)
             ∧ (NoDup selected → selected `prefix_of` SyncLayer.id <$> items)
        else SyncLayer.id <$> items = hits.
Proof.
  intros Hm Hactive Hw%Qltb_true_iff Hh%Qltb_true_iff out hits.
  unfold out, DiagramView.handleMouseUp. rewrite Hm, Hactive, Hw, Hh. simpl.
  split; [done|]. split; [done|]. split; [apply marqueeHits_iff|].
  fold hits. destruct (shiftKey && (0 <? length selected)) eqn:E.
  - eexists. split; [done|]. rewrite withLabels_ids.
    destruct (setToArray_spec (selected ++ hits)) as [Hnd Hin].
    split; [done|]. split.
    + intros i. by rewrite Hin, elem_of_app.
    + apply setToArray_prefix.
  - eexists. split; [done|]. apply withLabels_ids.
Qed.

Lemma marquee_selects_overlapping_groups_witness :
  let m := DiagramView.mkMarquee true 10 10 110 60 in
  let p :=
    DiagramView.mkPointer false false false (DiagramView.mkPoint 0 0)
      (Some m) true
      (DiagramView.mkView 1 (DiagramView.mkPoint 0 0)) in
  let groups :=
    [DiagramView.mkGroup (Some "Alice") (DiagramView.mkRect 20 20 30 30) [];
     DiagramView.mkGroup (Some "_bg") (DiagramView.mkRect 0 0 400 400) [];
     DiagramView.mkGroup (Some "Bob") (DiagramView.mkRect 100 50 40 40) [];
     DiagramView.mkGroup (Some "Carol") (DiagramView.mkRect 300 300 40 40)
       []] in
  DiagramView.marquee p = Some m
  ∧ DiagramView.active m = true
  ∧ (5 < DiagramView.box_w (DiagramView.marqueeBox m))%Q
  ∧ (5 < DiagramView.box_h (DiagramView.marqueeBox m))%Q
  ∧ DiagramView.marqueeJustFinished
      (DiagramView.handleMouseUp ∅ [] (Some (DiagramView.mkRect 0 0 400 400))
         true (Some groups) false p).1 = true
  ∧ DiagramView.marqueeHits (DiagramView.marqueeBox m)
      (DiagramView.mkRect 0 0 400 400) groups = ["Alice"; "Bob"].
Proof.
  intros m p groups.
  do 4 (split; [reflexivity|]).
  split; [|reflexivity].
  exact (proj1 (proj2 (marquee_selects_overlapping_groups ∅ []
                         (DiagramView.mkRect 0 0 400 400) groups false m p
                         eq_refl eq_refl eq_refl eq_refl))).
Defined.

Lemma handleMouseUp_small
    (labelMap : gmap string string) (selected : list string)
    (wrapperRect : DiagramView.DOMRect) (svg : option (list DiagramView.Group))
    (shiftKey : bool) (m : DiagramView.Marquee) (p : DiagramView.Pointer) :
  DiagramView.marquee p = Some m →
  DiagramView.active m = true →
  (DiagramView.box_w (DiagramView.marqueeBox m) <= 5
   ∨ DiagramView.box_h (DiagramView.marqueeBox m) <= 5)%Q →
  DiagramView.handleMouseUp labelMap selected (Some wrapperRect) true svg
    shiftKey p
  = (DiagramView.mkPointer (DiagramView.dragging p) (DiagramView.dragMoved p)
       true (DiagramView.lastMouse p) None (DiagramView.selectionMode p)
       (DiagramView.view p), None).
Proof.
  intros Hm Hactive Hsmall.
  unfold DiagramView.handleMouseUp. rewrite Hm, Hactive.
  cbv zeta. cbn [andb].
  destruct Hsmall as [H%Qltb_false_iff | H%Qltb_false_iff]; rewrite H;
    by rewrite ?andb_false_r.
Qed.

(** X7: A marquee at most 5 wide or at most 5 high selects nothing and leaves
    the selection alone; it still closes and still marks the next click
    for suppression. *)
Theorem small_marquee_changes_nothing
    (labelMap : gmap string string) (selected : list string)
    (wrapperRect : DiagramView.DOMRect) (svg : option (list DiagramView.Group))
    (shiftKey : bool) (m : DiagramView.Marquee) (p : DiagramView.Pointer) :
  DiagramView.marquee p = Some m →
  DiagramView.active m = true →
  (DiagramView.box_w (DiagramView.marqueeBox m) <= 5
   ∨ DiagramView.box_h (DiagramView.marqueeBox m) <= 5)%Q →
  let out :=
    DiagramView.handleMouseUp labelMap selected (Some wrapperRect) true svg
      shiftKey p in
  out.2 = None
  ∧ DiagramView.marquee out.1 = None
  ∧ DiagramView.marqueeJustFinished out.1 = true.
Proof.
  intros Hm Hactive Hsmall out. unfold out.
  by rewrite (handleMouseUp_small _ _ _ _ _ m p Hm Hactive Hsmall).
Qed.

Lemma small_marquee_changes_nothing_witness :
  let m := DiagramView.mkMarquee true 10 10 12 90 in
  let p :=
    DiagramView.mkPointer false false false (DiagramView.mkPoint 0 0)
      (Some m) true
      (DiagramView.mkView 1 (DiagramView.mkPoint 0 0)) in
  DiagramView.marquee p = Some m
  ∧ DiagramView.active m = true
  ∧ (DiagramView.box_w (DiagramView.marqueeBox m) <= 5
     ∨ DiagramView.box_h (DiagramView.marqueeBox m) <= 5)%Q
  ∧ (DiagramView.handleMouseUp ∅ ["Alice"]
       (Some (DiagramView.mkRect 0 0 400 400)) true (Some []) false p).2
    = None.
Proof.
  intros m p.
  assert (DiagramView.box_w (DiagramView.marqueeBox m) <= 5
          ∨ DiagramView.box_h (DiagramView.marqueeBox m) <= 5)%Q as Hsmall.
  { left. vm_compute. discriminate. }
  do 2 (split; [reflexivity|]). split; [exact Hsmall|].
  exact (proj1 (small_marquee_changes_nothing ∅ ["Alice"]
                  (DiagramView.mkRect 0 0 400 400) (Some []) false m p
                  eq_refl eq_refl Hsmall)).
Defined.

(** X8: A click in selection mode on an element toggles it: the clicked
    identifier is selected afterwards exactly when it was not before, every
    other identifier keeps its state, and the refs are left alone. *)
Theorem click_toggles_membership
    (labelMap : gmap string string) (selected : list string)
    (chain : list DiagramView.Node) (clickedId : string)
    (p : DiagramView.Pointer) :
  DiagramView.dragMoved p = false →
  DiagramView.marqueeJustFinished p = false →
  DiagramView.selectionMode p = true →
  DiagramView.findSelectableId chain = Some clickedId →
  let out := DiagramView.handleClick labelMap selected chain p in
  out.1 = p
  ∧ ∃ items,
      out.2 = Some items
      ∧ (clickedId ∈ SyncLayer.id <$> items ↔ clickedId ∉ selected)
      ∧ ∀ i, i ≠ clickedId →
             (i ∈ SyncLayer.id <$> items ↔ i ∈ selected).
Proof.
  intros Hd Hm Hs Hc out. unfold out, DiagramView.handleClick.
  rewrite Hd, Hm, Hs, Hc. simpl.
  destruct (bool_decide (clickedId ∈ selected)) eqn:E; simpl.
  - apply bool_decide_eq_true in E. split; [done|]. eexists.
    split; [done|]. rewrite withLabels_ids. split.
    + rewrite list_elem_of_filter. tauto.
    + intros i Hi. rewrite list_elem_of_filter. tauto.
  - apply bool_decide_eq_false in E. split; [done|]. eexists.
    split; [done|]. rewrite withLabels_ids. split.
    + rewrite elem_of_app, list_elem_of_singleton. tauto.
    + intros i Hi. rewrite elem_of_app, list_elem_of_singleton. tauto.
Qed.

Lemma click_toggles_membership_witness :
  let p :=
    DiagramView.mkPointer false false false (DiagramView.mkPoint 0 0) None
      true (DiagramView.mkView 1 (DiagramView.mkPoint 0 0)) in
  let chain :=
    [DiagramView.mkNode DiagramView.TagOther "";
     DiagramView.mkNode DiagramView.TagG "Alice"] in
  DiagramView.dragMoved p = false
  ∧ DiagramView.marqueeJustFinished p = false
  ∧ DiagramView.selectionMode p = true
  ∧ DiagramView.findSelectableId chain = Some "Alice"
  ∧ (DiagramView.handleClick ∅ ["Alice"; "Bob"] chain p).1 = p.
Proof.
  intros p chain. do 4 (split; [reflexivity|]).
  exact (proj1 (click_toggles_membership ∅ ["Alice"; "Bob"] chain "Alice" p
                  eq_refl eq_refl eq_refl eq_refl)).
Defined.

(** X9: After a marquee is released the next click selects nothing, wherever
    it lands; when no drag was recorded that click uses up the
    suppression. *)
Theorem marquee_suppresses_next_click
    (labelMap : gmap string string) (selected selected' : list string)
    (wrapperRect : DiagramView.DOMRect) (svg : option (list DiagramView.Group))
    (shiftKey : bool) (chain : list DiagramView.Node)
    (m : DiagramView.Marquee) (p : DiagramView.Pointer) :
  DiagramView.marquee p = Some m →
  DiagramView.active m = true →
  let released :=
    (DiagramView.handleMouseUp labelMap selected (Some wrapperRect) true svg
       shiftKey p).1 in
  let clicked := DiagramView.handleClick labelMap selected' chain released in
  clicked.2 = None
  ∧ (DiagramView.dragMoved p = false →
     DiagramView.marqueeJustFinished clicked.1 = false)
  ∧ (DiagramView.dragMoved p = true → clicked.1 = released).
Proof.
  intros Hm Hactive released clicked.
  unfold clicked, released, DiagramView.handleMouseUp,
    DiagramView.handleClick.
  rewrite Hm, Hactive. simpl.
  destruct (DiagramView.dragMoved p); simpl; repeat split; done.
Qed.

Lemma marquee_suppresses_next_click_witness :
  let m := DiagramView.mkMarquee true 10 10 110 60 in
  let p :=
    DiagramView.mkPointer false false false (DiagramView.mkPoint 0 0)
      (Some m) true (DiagramView.mkView 1 (DiagramView.mkPoint 0 0)) in
  let chain := [DiagramView.mkNode DiagramView.TagG "Alice"] in
  let wrapperRect := DiagramView.mkRect 0 0 400 400 in
  DiagramView.marquee p = Some m
  ∧ DiagramView.active m = true
  ∧ (DiagramView.handleClick ∅ [] chain
       (DiagramView.handleMouseUp ∅ [] (Some wrapperRect) true (Some [])
          false p).1).2 = None.
Proof.
  intros m p chain wrapperRect. do 2 (split; [reflexivity|]).
  exact (proj1 (marquee_suppresses_next_click ∅ [] [] wrapperRect (Some [])
                  false chain m p eq_refl eq_refl)).
Defined.

(** X10: In selection mode a press, release and click at one point of the empty
    canvas never reaches [onSelectionChange]: the press opens a marquee,
    which the release closes as too small, and the click is suppressed.
    The selection in place stays. *)
Theorem click_on_empty_canvas_keeps_selection
    (labelMap : gmap string string) (selected : list string)
    (wrapperRect : DiagramView.DOMRect) (svg : option (list DiagramView.Group))
    (shiftKey : bool) (chain : list DiagramView.Node) (clientX clientY : Q)
    (p : DiagramView.Pointer) :
  DiagramView.selectionMode p = true →
  DiagramView.findSelectableId chain = None →
  let pressed :=
    DiagramView.handleMouseDown 0 chain (Some wrapperRect) clientX clientY p in
  let released :=
    DiagramView.handleMouseUp labelMap selected (Some wrapperRect) true svg
      shiftKey pressed in
  let clicked := DiagramView.handleClick labelMap selected chain released.1 in
  DiagramView.marqueeActive pressed = true
  ∧ released.2 = None
  ∧ clicked.2 = None.
Proof.
  intros Hs Hc pressed released clicked.
  set (m := DiagramView.mkMarquee true
              (clientX - DiagramView.left wrapperRect)
              (clientY - DiagramView.top wrapperRect)
              (clientX - DiagramView.left wrapperRect)
              (clientY - DiagramView.top wrapperRect)).
  assert (DiagramView.marquee pressed = Some m) as Hm.
  { unfold pressed, DiagramView.handleMouseDown. by rewrite Hs, Hc. }
  assert (DiagramView.box_w (DiagramView.marqueeBox m) <= 5
          ∨ DiagramView.box_h (DiagramView.marqueeBox m) <= 5)%Q as Hsmall.
  { left. unfold DiagramView.marqueeBox, m.
    cbn [DiagramView.box_w DiagramView.currentX DiagramView.startX].
    assert (clientX - DiagramView.left wrapperRect
            - (clientX - DiagramView.left wrapperRect) == 0)%Q as ->
      by ring.
    discriminate. }
  split.
  { unfold DiagramView.marqueeActive. by rewrite Hm. }
  unfold clicked, released.
  rewrite (handleMouseUp_small _ _ _ _ _ m pressed Hm eq_refl Hsmall).
  split; [done|].
  unfold DiagramView.handleClick. simpl.
  by destruct (DiagramView.dragMoved pressed).
Qed.

Lemma click_on_empty_canvas_keeps_selection_witness :
  let p :=
    DiagramView.mkPointer false false false (DiagramView.mkPoint 0 0) None
      true (DiagramView.mkView 1 (DiagramView.mkPoint 0 0)) in
  let chain := [DiagramView.mkNode DiagramView.TagOther ""] in
  let wrapperRect := DiagramView.mkRect 0 0 400 400 in
  DiagramView.selectionMode p = true
  ∧ DiagramView.findSelectableId chain = None
  ∧ (DiagramView.handleClick ∅ ["Alice"] chain
       (DiagramView.handleMouseUp ∅ ["Alice"] (Some wrapperRect) true
          (Some []) false
          (DiagramView.handleMouseDown 0 chain (Some wrapperRect) 50 60
             p)).1).2 = None.
Proof.
  intros p chain wrapperRect. do 2 (split; [reflexivity|]).
  exact (proj2 (proj2 (click_on_empty_canvas_keeps_selection ∅ ["Alice"]
                         wrapperRect (Some []) false chain 50 60 p
                         eq_refl eq_refl))).
Defined.

(** ** Panning *)

Lemma handleMouseMove_dragging (wrapper : option DiagramView.DOMRect)
    (clientX clientY : Q) (p : DiagramView.Pointer) :
  DiagramView.dragging p = true →
  DiagramView.marqueeActive p = false →
  let p' := DiagramView.handleMouseMove wrapper clientX clientY p in
  DiagramView.dragging p' = true
  ∧ DiagramView.marqueeActive p' = false
  ∧ DiagramView.lastMouse p' = DiagramView.mkPoint clientX clientY
  ∧ DiagramView.scale (DiagramView.view p')
    = DiagramView.scale (DiagramView.view p)
  ∧ (DiagramView.x (DiagramView.pan (DiagramView.view p')) - clientX
     == DiagramView.x (DiagramView.pan (DiagramView.view p))
        - DiagramView.x (DiagramView.lastMouse p))%Q
  ∧ (DiagramView.y (DiagramView.pan (DiagramView.view p')) - clientY
     == DiagramView.y (DiagramView.pan (DiagramView.view p))
        - DiagramView.y (DiagramView.lastMouse p))%Q
  ∧ DiagramView.dragMoved p'
    = (DiagramView.Qltb 3
         (Qabs (clientX - DiagramView.x (DiagramView.lastMouse p)))
       || DiagramView.Qltb 3
            (Qabs (clientY - DiagramView.y (DiagramView.lastMouse p)))
       || DiagramView.dragMoved p).
Proof.
  intros Hd Hm p'. unfold p', DiagramView.handleMouseMove.
  rewrite Hm, Hd. cbn [negb].
  unfold DiagramView.marqueeActive in *.
  cbn [DiagramView.dragging DiagramView.marquee DiagramView.lastMouse
       DiagramView.view DiagramView.scale DiagramView.pan DiagramView.x
       DiagramView.y DiagramView.dragMoved].
  repeat split; try done; try ring.
Qed.

(** X12: The drag flag is raised by a single move of more than 3 in one
    direction only: a drag made of smaller moves never raises it, however
    far it goes, so the click that ends it is handled as a click. *)
Theorem slow_drag_is_not_a_drag
    (wrapper : option DiagramView.DOMRect) (positions : list (Q * Q))
    (p : DiagramView.Pointer) :
  DiagramView.dragging p = true →
  DiagramView.marqueeActive p = false →
  DiagramView.dragMoved p = false →
  (∀ i a b,
     ((DiagramView.x (DiagramView.lastMouse p),
       DiagramView.y (DiagramView.lastMouse p)) :: positions) !! i
     = Some a →
     positions !! i = Some b →
     (Qabs (b.1 - a.1) <= 3 ∧ Qabs (b.2 - a.2) <= 3)%Q) →
  DiagramView.dragMoved (DiagramView.drag wrapper positions p) = false.
Proof.
  revert p. induction positions as [|[cx cy] positions IH];
    intros p Hd Hm Hmoved Hsteps; [done|].
  destruct (handleMouseMove_dragging wrapper cx cy p Hd Hm)
    as (Hd' & Hm' & Hl & _ & _ & _ & Hmv).
  unfold DiagramView.drag in *. cbn [fold_left fst snd].
  apply IH; [done | done | |].
  - rewrite Hmv, Hmoved.
    destruct (Hsteps 0%nat _ (cx, cy) eq_refl eq_refl) as [Hx Hy].
    cbn [fst snd] in Hx, Hy.
    apply Qltb_false_iff in Hx, Hy. by rewrite Hx, Hy.
  - intros i a b Ha Hb. rewrite Hl in Ha.
    apply (Hsteps (S i) a b); done.
Qed.

Lemma slow_drag_is_not_a_drag_witness :
  let p :=
    DiagramView.mkPointer true false false (DiagramView.mkPoint 100 100) None
      false (DiagramView.mkView 1 (DiagramView.mkPoint 0 0)) in
  let positions := [(103%Q, 100%Q); (106%Q, 100%Q); (109%Q, 100%Q); (112%Q, 100%Q)] in
  DiagramView.dragging p = true
  ∧ DiagramView.marqueeActive p = false
  ∧ DiagramView.dragMoved p = false
  ∧ DiagramView.dragMoved (DiagramView.drag None positions p) = false.
Proof.
  intros p positions. do 3 (split; [reflexivity|]).
  apply (slow_drag_is_not_a_drag None positions p eq_refl eq_refl eq_refl).
  intros i a b Ha Hb.
  do 4 (destruct i as [|i];
        [injection Ha as <-; injection Hb as <-; split; discriminate|]).
  done.
Defined.

(** ** Identifiers and labels *)

(** X13: The identifier under the pointer is that of the nearest element, from
    the target upwards, that is a group, rectangle, path or ellipse with a
    non-empty [id] not starting with an underscore; the extra look at the
    parent never changes the answer.  No other identifier is ever
    returned. *)
Theorem findSelectableId_nearest_valid (chain : list DiagramView.Node) :
  DiagramView.findSelectableId chain
  = DiagramView.nodeId
      <$> head (filter
                  (fun n =>
                     DiagramView.isShape (DiagramView.tag n)
                     && DiagramView.validId (DiagramView.nodeId n) = true)
                  chain)
  ∧ ∀ i, DiagramView.findSelectableId chain = Some i →
         i ≠ "" ∧ String.prefix "_" i = false
         ∧ ∃ n, n ∈ chain ∧ DiagramView.nodeId n = i
                ∧ DiagramView.isShape (DiagramView.tag n) = true.
Proof.
  assert (DiagramView.findSelectableId chain
          = DiagramView.nodeId
              <$> head (filter
                          (fun n =>
                             DiagramView.isShape (DiagramView.tag n)
                             && DiagramView.validId (DiagramView.nodeId n)
                             = true) chain)) as Hspec.
  { induction chain as [|current ancestors IH]; [done|].
    cbn [DiagramView.findSelectableId]. rewrite filter_cons.
    destruct (DiagramView.isShape (DiagramView.tag current)
              && DiagramView.validId (DiagramView.nodeId current)) eqn:E.
    - by rewrite decide_True.
    - rewrite decide_False by (by intros ?).
      destruct ancestors as [|parent ancestors']; [done|].
      destruct (DiagramView.isG (DiagramView.tag parent)
                && DiagramView.validId (DiagramView.nodeId parent)) eqn:Ep;
        [|exact IH].
      rewrite filter_cons, decide_True; [done|].
      apply andb_true_iff in Ep as [Hg ->].
      by destruct (DiagramView.tag parent). }
  split; [exact Hspec|]. intros i Hi. rewrite Hspec in Hi.
  destruct (head _) as [n|] eqn:Hhead; [|done]. injection Hi as <-.
  apply head_Some_elem_of in Hhead.
  apply list_elem_of_filter in Hhead as [Hok Hn].
  apply andb_true_iff in Hok as [Hshape Hvalid].
  unfold DiagramView.validId in Hvalid.
  apply andb_true_iff in Hvalid as [Hne%truthy_true_iff Hpre%negb_true_iff].
  eauto 10.
Qed.

Lemma labelParts_fold (texts : list (option string)) (acc : list string) :
  NoDup acc →
  let r :=
    fold_left
      (fun parts t =>
         match t with
         | Some textContent =>
             let text := Js.trim textContent in
             if Js.truthy text && negb (bool_decide (text ∈ parts))
             then parts ++ [text] else parts
         | None => parts
         end) texts acc in
  NoDup r
  ∧ ∀ t, t ∈ r ↔ t ∈ acc
                 ∨ (t ≠ "" ∧ ∃ tc, Some tc ∈ texts ∧ t = Js.trim tc).
Proof.
  revert acc. induction texts as [|[tc|] texts IH]; intros acc Hacc.
  - simpl. split; [done|]. intros t. split; [auto|].
    intros [?|(_ & tc & Hin & _)]; [done|]. by apply elem_of_nil in Hin.
  - cbn [fold_left]. cbv zeta.
    destruct (Js.truthy (Js.trim tc)
              && negb (bool_decide (Js.trim tc ∈ acc))) eqn:E.
    + apply andb_true_iff in E as [Ht%truthy_true_iff Hn%negb_true_iff].
      apply bool_decide_eq_false in Hn.
      destruct (IH (acc ++ [Js.trim tc])) as [Hnd Hin].
      { apply NoDup_app. split; [done|]. split; [|apply NoDup_singleton].
        by intros y Hy ->%list_elem_of_singleton. }
      split; [exact Hnd|]. intros t. rewrite Hin.
      rewrite elem_of_app, list_elem_of_singleton. split.
      * intros [[?| ->]|(Hne & tc' & Htc & ->)]; [by left | |].
        -- right. split; [done|]. exists tc. split; [by left|done].
        -- right. split; [done|]. exists tc'. split; [by right|done].
      * intros [?|(Hne & tc' & Htc & ->)]; [by left; left|].
        apply elem_of_cons in Htc as [[= ->]|Htc]; [by left; right|].
        right. split; [done|]. by exists tc'.
    + destruct (IH acc Hacc) as [Hnd Hin].
      split; [exact Hnd|]. intros t. rewrite Hin. split.
      * intros [?|(Hne & tc' & Htc & ->)]; [by left|].
        right. split; [done|]. exists tc'. split; [by right|done].
      * intros [?|(Hne & tc' & Htc & ->)]; [by left|].
        apply elem_of_cons in Htc as [[= ->]|Htc].
        -- left. apply andb_false_iff in E as [E|E].
           ++ by apply truthy_false_iff in E.
           ++ apply negb_false_iff in E. by apply bool_decide_eq_true in E.
        -- right. split; [done|]. by exists tc'.
  - cbn [fold_left]. destruct (IH acc Hacc) as [Hnd Hin].
    split; [exact Hnd|]. intros t. rewrite Hin. split.
    + intros [?|(Hne & tc' & Htc & ->)]; [by left|].
      right. split; [done|]. exists tc'. split; [by right|done].
    + intros [?|(Hne & tc' & Htc & ->)]; [by left|].
      apply elem_of_cons in Htc as [[=]|Htc].
      right. split; [done|]. by exists tc'.
Qed.

Lemma join_empty_iff (parts : list string) :
  (∀ t, t ∈ parts → t ≠ "") → Js.join " " parts = "" ↔ parts = [].
Proof.
  intros Hne. destruct parts as [|t parts]; [done|]. split; [|done].
  intros H. exfalso. revert H. apply concat_nonempty. apply Hne. by left.
Qed.

(** X14: The label of a group is made of its distinct, trimmed, non-blank text
    runs; a group with no such text is labelled by its identifier.  Adding
    labels to a selection keeps the identifiers and their order, and gives
    every non-empty identifier a non-empty label. *)
Theorem labels_of_selection :
  (∀ g : DiagramView.Group,
     let parts := DiagramView.labelParts (DiagramView.texts g) in
     NoDup parts
     ∧ (∀ t, t ∈ parts
             ↔ t ≠ "" ∧ ∃ tc, Some tc ∈ DiagramView.texts g ∧ t = Js.trim tc)
     ∧ DiagramView.extractElementLabel g
       = (if bool_decide (parts = []) then DiagramView.groupId g
          else Js.join " " parts))
  ∧ (∀ (labelMap : gmap string string) (ids : list string),
       SyncLayer.id <$> DiagramView.withLabels labelMap ids = ids
       ∧ ∀ item, item ∈ DiagramView.withLabels labelMap ids →
                 SyncLayer.id item ≠ "" → SyncLayer.label item ≠ "").
Proof.
  split.
  - intros g parts.
    assert (NoDup parts
            ∧ ∀ t, t ∈ parts
                   ↔ t ∈ []
                     ∨ (t ≠ "" ∧ ∃ tc, Some tc ∈ DiagramView.texts g
                                       ∧ t = Js.trim tc)) as [Hnd Hin]
      by exact (labelParts_fold (DiagramView.texts g) [] NoDup_nil_2).
    assert (∀ t, t ∈ parts
                 ↔ t ≠ "" ∧ ∃ tc, Some tc ∈ DiagramView.texts g
                                  ∧ t = Js.trim tc) as Hparts.
    { intros t. rewrite Hin, elem_of_nil. tauto. }
    split; [exact Hnd|]. split; [exact Hparts|].
    unfold DiagramView.extractElementLabel. fold parts.
    assert (Js.join " " parts = "" ↔ parts = []) as Hjoin.
    { apply join_empty_iff. intros t Ht. by apply Hparts in Ht as [? _]. }
    destruct (bool_decide (parts = [])) eqn:E.
    + apply bool_decide_eq_true in E. rewrite E. reflexivity.
    + apply bool_decide_eq_false in E.
      destruct (Js.truthy (Js.join " " parts)) eqn:Ht; [done|].
      apply truthy_false_iff in Ht. by apply Hjoin in Ht.
  - intros labelMap ids. split; [apply withLabels_ids|].
    intros item Hitem Hid. unfold DiagramView.withLabels in Hitem.
    apply list_elem_of_fmap in Hitem as (i & -> & _). simpl in *.
    destruct (labelMap !! i) as [l|]; [|done].
    destruct (Js.truthy l) eqn:Ht; [|done]. by apply truthy_true_iff.
Qed.

(** ** The rendering engine as a whole *)

Lemma prefix_iff (p s : string) :
  String.prefix p s = true ↔ ∃ suf, s = p +:+ suf.
Proof.
  revert s. induction p as [|a p IH]; intros s.
  - split; [by exists s | by destruct s].
  - destruct s as [|b s]; simpl; [split; [done | by intros [? ?]]|].
    destruct (ascii_dec a b) as [->|Hne].
    + rewrite IH. split.
      * intros [suf ->]. by exists suf.
      * intros [suf H]. rewrite sapp_cons in H. injection H as ->.
        by exists suf.
    + split; [done|]. intros [suf H]. rewrite sapp_cons in H. congruence.
Qed.

Lemma includes_iff (s pat : string) :
  Js.includes s pat = true ↔ ∃ pre suf, s = pre +:+ pat +:+ suf.
Proof.
  assert (∀ t, Js.includes t pat
               = String.prefix pat t
                 || match t with
                    | "" => false
                    | String _ t' => Js.includes t' pat
                    end) as Hunfold by (by intros []).
  induction s as [|c s IH]; rewrite Hunfold.
  - rewrite orb_false_r, prefix_iff. split.
    + intros [suf ->]. by exists "", suf.
    + intros ([|] & suf & H); [by exists suf | discriminate].
  - rewrite orb_true_iff, prefix_iff, IH. split.
    + intros [[suf ->] | (pre & suf & ->)].
      * by exists "", suf.
      * by exists (String c pre), suf.
    + intros ([|d pre] & suf & H).
      * left. by exists suf.
      * right. rewrite sapp_cons in H. injection H as -> ->.
        by exists pre, suf.
Qed.

(** X15: The content heuristic holds exactly of the texts that contain one of
    the four marker phrases, letter case included; so it is kept by
    whatever surrounds such a text. *)
Theorem isSvgError_iff_contains_marker (svg : string) :
  (Render.isSvgError svg = true
   ↔ ∃ marker pre suf,
       marker ∈ ["Syntax Error"; "ErrorURLDecoder"; "[From string (line";
                 "syntax is deprecated"]
       ∧ svg = pre +:+ marker +:+ suf)
  ∧ (∀ before after,
       Render.isSvgError svg = true →
       Render.isSvgError (before +:+ svg +:+ after) = true).
Proof.
  assert (∀ t, Render.isSvgError t = true
               ↔ ∃ marker pre suf,
                   marker ∈ ["Syntax Error"; "ErrorURLDecoder";
                             "[From string (line"; "syntax is deprecated"]
                   ∧ t = pre +:+ marker +:+ suf) as Hiff.
  { intros t. unfold Render.isSvgError.
    rewrite !orb_true_iff, !includes_iff. split.
    - intros [[[(pre & suf & ->)|(pre & suf & ->)]|(pre & suf & ->)]
             |(pre & suf & ->)]; eexists _, pre, suf; (split; [|done]);
        set_solver.
    - intros (marker & pre & suf & Hin & ->).
      repeat (apply elem_of_cons in Hin as [->|Hin]); [..|by apply elem_of_nil in Hin];
        eauto 10. }
  split; [apply Hiff|].
  intros before after (marker & pre & suf & Hin & ->)%Hiff.
  apply Hiff. exists marker, (before +:+ pre), (suf +:+ after).
  split; [done|]. by rewrite !sapp_assoc.
Qed.

(** X16: [renderPlantUml] asks the backend at most once, for the SVG URL of the
    text, and only for a text that is not blank; it yields an SVG only
    when that request was answered with [ok] and the body could be read. *)
Theorem renderPlantUml_single_request
    (encode : string → string) (fetch : string → Render.FetchOutcome)
    (code : string) :
  (Render.renderPlantUml encode fetch code).1
  = (if Js.truthy (Js.trim code) then [Render.getSvgUrl encode code] else [])
  ∧ ∀ svg,
      (Render.renderPlantUml encode fetch code).2 = Render.Fulfilled svg
      ↔ Js.trim code ≠ ""
        ∧ ∃ response,
            fetch (Render.getSvgUrl encode code) = Render.Responded response
            ∧ Render.ok response = true
            ∧ Render.text response = Render.Fulfilled svg.
Proof.
  unfold Render.renderPlantUml, Render.getSvgUrl.
  destruct (Js.truthy (Js.trim code)) eqn:Ht; simpl.
  - apply truthy_true_iff in Ht.
    destruct (fetch _) as [response|m] eqn:Hf; simpl.
    + destruct (Render.ok response) eqn:Hok; simpl.
      * split; [done|]. intros svg. split; [by eauto 10|].
        by intros (_ & r & [= <-] & _ & ?).
      * split; [done|]. intros svg. split; [done|].
        intros (_ & r & [= <-] & ? & _). congruence.
    + split; [done|]. intros svg. split; [done|].
      by intros (_ & r & ? & _).
  - apply truthy_false_iff in Ht. split; [done|].
    intros svg. split; [done | by intros [? _]].
Qed.

(** ** The sync layer as a whole *)

(** X17: The message of [sendToAgent] opens with the delta section exactly when
    the change log is not empty, and always ends with the selection line,
    an empty line, the type line and the whole document. *)
Theorem sendToAgent_message
    (app : SyncLayer.McpApp) (plantUmlCode : string)
    (selectedElements : list string) (diagramType : string)
    (w : SyncLayer.World) :
  let common :=
    ("Currently selected: "
     +:+ (if 0 <? length selectedElements
          then Js.join ", " selectedElements else "none"))
    +:+ Js.nl +:+ Js.nl
    +:+ ("Full PlantUML code (" +:+ diagramType +:+ "):")
    +:+ Js.nl +:+ plantUmlCode in
  SyncLayer.sendMessageCalls
    (SyncLayer.sendToAgent (Some app) plantUmlCode selectedElements
       diagramType w).2
  = SyncLayer.sendMessageCalls w
    ++ [if bool_decide (SyncLayer.changeLog w = []) then common
        else "User edited the diagram:" +:+ Js.nl
             +:+ ChangeLog.serialize (SyncLayer.changeLog w)
             +:+ Js.nl +:+ common].
Proof.
  intros common. unfold SyncLayer.sendToAgent.
  unfold mbind, SyncLayer.M_bind, SyncLayer.bind,
    SyncLayer.changeLog_serialize, SyncLayer.tryCatch,
    SyncLayer.app_sendMessage, SyncLayer.changeLog_clear, SyncLayer.ret.
  pose proof (serialize_empty_iff (SyncLayer.changeLog w)) as Hempty.
  destruct (bool_decide (SyncLayer.changeLog w = [])) eqn:E.
  - apply bool_decide_eq_true in E.
    rewrite (proj2 (truthy_false_iff _) (proj2 Hempty E)).
    destruct (SyncLayer.sendMessage app _); reflexivity.
  - apply bool_decide_eq_false in E.
    assert (Js.truthy (ChangeLog.serialize (SyncLayer.changeLog w)) = true)
      as ->.
    { apply truthy_true_iff. intros H. by apply Hempty in H. }
    destruct (SyncLayer.sendMessage app _); reflexivity.
Qed.

(** X18: [silentSync] never throws: whether [updateModelContext] throws or
    returns, the call returns, having handed the channel one context block
    that ends with the whole document; without an app it does nothing. *)
Theorem silentSync_never_throws
    (app : option SyncLayer.ContextApp) (plantUmlCode : string)
    (selectedElements : list string) (diagramType : string)
    (calls : list string) :
  (SyncLayer.silentSync app plantUmlCode selectedElements diagramType
     calls).1 = SyncLayer.Returned tt
  ∧ (SyncLayer.silentSync app plantUmlCode selectedElements diagramType
       calls).2
    = match app with
      | None => calls
      | Some _ =>
          calls
          ++ [("Current diagram type: " +:+ diagramType) +:+ Js.nl
              +:+ ("Selected elements: "
                   +:+ (if 0 <? length selectedElements
                        then Js.join ", " selectedElements else "none"))
              +:+ Js.nl +:+ Js.nl +:+ "PlantUML code:" +:+ Js.nl
              +:+ plantUmlCode]
      end.
Proof.
  unfold SyncLayer.silentSync. destruct app as [app|]; [|done].
  destruct (SyncLayer.updateModelContext app _); split; reflexivity.
Qed.

(** ** The bookkeeping of the scheduler along every trace *)

Lemma allWhite_app (a b : string) :
  Js.allWhite (a +:+ b) = Js.allWhite a && Js.allWhite b.
Proof.
  induction a as [|c a IH]; [by rewrite sapp_nil_l|].
  rewrite sapp_cons. simpl. rewrite IH. by rewrite andb_assoc.
Qed.

(** The text of a streaming render is never blank: a text that is left as
    it is holds a closing marker, any other gets one. *)
Lemma repairStreaming_not_blank (code : string) :
  Js.trim (App.repairStreaming code) ≠ "".
Proof.
  rewrite trim_empty_iff. unfold App.repairStreaming.
  destruct (App.endMarkerRe (Js.trimEnd code)) eqn:Hend; simpl.
  - intros Hw. apply trimEnd_empty_iff in Hw. rewrite Hw in Hend.
    discriminate Hend.
  - rewrite !allWhite_app.
    destruct (App.startMatch (Js.trimEnd code));
      rewrite ?sapp_cons; simpl; rewrite !andb_false_r; discriminate.
Qed.

Lemma Consistent_side (s s' : App.AppState) :
  App.renderSide s' = App.renderSide s →
  App.Consistent s → App.Consistent s'.
Proof.
  unfold App.renderSide. intros [= Hc Hs Ht Hi Hv Hl] [H1 H2 H3 H4 H5].
  constructor; rewrite ?Hc, ?Hs, ?Ht, ?Hi, ?Hv, ?Hl; assumption.
Qed.

(** A call of [doRender] takes the next version; its text is not blank
    when it is a streaming call or its argument is not blank. *)
Lemma Consistent_doRender (code : string) (m : bool) (s : App.AppState) :
  App.Consistent s →
  (m = false → Js.trim code ≠ "") →
  App.Consistent (App.doRender code m s).
Proof.
  intros [H1 H2 H3 H4 H5] Hcode.
  unfold App.doRender, App.doRender_call.
  destruct m; simpl.
  - constructor; simpl; try assumption.
    + rewrite fmap_app, length_app, H1, H2. simpl.
      rewrite Nat.add_1_r, seq_S. reflexivity.
    + rewrite length_app, H2. simpl. lia.
    + intros p [Hp | ->%list_elem_of_singleton]%elem_of_app; [by apply H5|].
      apply repairStreaming_not_blank.
  - constructor; simpl; try assumption.
    + rewrite fmap_app, length_app, H1, H2. simpl.
      rewrite Nat.add_1_r, seq_S. reflexivity.
    + rewrite length_app, H2. simpl. lia.
    + intros p [Hp | ->%list_elem_of_singleton]%elem_of_app; [by apply H5|].
      by apply Hcode.
Qed.

Lemma Consistent_fireRenderTimer (s : App.AppState) :
  App.Consistent s → App.Consistent (App.fireRenderTimer s).
Proof.
  intros Hs. unfold App.fireRenderTimer.
  destruct (App.renderTimer s) as [[due code]|] eqn:Ht; [|done].
  destruct (due <=? App.now s); [|done].
  apply Consistent_doRender.
  - destruct Hs as [H1 H2 H3 H4 H5]. constructor; simpl; try assumption.
    discriminate.
  - intros _. by destruct (App.debounce_current _ Hs _ _ Ht).
Qed.

Lemma Consistent_fireStreamingInterval (s : App.AppState) :
  App.Consistent s → App.Consistent (App.fireStreamingInterval s).
Proof.
  intros Hs. unfold App.fireStreamingInterval.
  destruct (App.streamingRenderTimer s) as [due|] eqn:Ht; [|done].
  destruct (due <=? App.now s); [|done].
  apply Consistent_doRender; [|discriminate].
  destruct Hs as [H1 H2 H3 H4 H5]. constructor; simpl; try assumption.
  split; [discriminate|]. intros Hf. apply H3 in Hf. congruence.
Qed.

Lemma Consistent_tick (s : App.AppState) :
  App.Consistent s → App.Consistent (App.tick s).
Proof.
  intros Hs. unfold App.tick.
  apply Consistent_fireRenderTimer, Consistent_fireStreamingInterval.
  eapply Consistent_side; [apply renderSide_fireErrorFixTimer|].
  by eapply Consistent_side; [|exact Hs].
Qed.

Lemma Consistent_elapse (ms : nat) (s : App.AppState) :
  App.Consistent s → App.Consistent (App.elapse ms s).
Proof.
  intros Hs. induction ms as [|ms IH]; [done|].
  rewrite elapse_succ. by apply Consistent_tick.
Qed.

Lemma Consistent_resume (p : App.Pending) (r : App.RenderResult)
    (s : App.AppState) :
  App.Consistent s → App.Consistent (App.doRender_resume p r s).
Proof.
  apply Consistent_side. unfold_handlers. handler_cases; reflexivity.
Qed.

Lemma Consistent_codeEffect (s : App.AppState) :
  App.Consistent s → App.Consistent (App.codeEffect s).
Proof.
  intros Hs. unfold App.codeEffect, App.scheduleRender.
  destruct (Js.truthy (Js.trim (App.plantUmlCode s))) eqn:Htr; [|done].
  destruct Hs as [H1 H2 H3 H4 H5]. constructor; simpl; try assumption.
  intros due code [= _ <-]. split; [done|]. by apply truthy_true_iff.
Qed.

Lemma Consistent_streamingEffect (s : App.AppState) :
  App.Consistent
    (App.set_streaming false (App.set_streamingRenderTimer None s)) →
  App.Consistent (App.streamingEffect s).
Proof.
  intros [H1 H2 H3 H4 H5]. simpl in *. unfold App.streamingEffect.
  destruct (App.streaming s) eqn:Hst.
  - assert (App.Consistent
              (App.doRender (App.plantUmlCode s) true
                 (App.set_streaming false
                    (App.set_streamingRenderTimer None s))))
      as [G1 G2 G3 G4 G5].
    { apply Consistent_doRender; [|discriminate]. by constructor. }
    constructor; simpl in *; try assumption.
    rewrite Hst. split; discriminate.
  - constructor; simpl; try assumption. by rewrite Hst.
Qed.

(** A handler writes the text and the streaming flag; the effects that
    React then runs put the timers in line with them. *)
Lemma Consistent_commit (prev s : App.AppState) :
  App.Consistent prev →
  App.renderTimer s = App.renderTimer prev →
  App.streamingRenderTimer s = App.streamingRenderTimer prev →
  App.renderVersion s = App.renderVersion prev →
  App.renderCalls s = App.renderCalls prev →
  App.Consistent (App.commit prev s).
Proof.
  intros [H1 H2 H3 H4 H5] Ht Hi Hv Hl.
  unfold App.commit.
  destruct (Bool.eqb (App.streaming prev) (App.streaming s)) eqn:Hse;
    destruct (String.eqb (App.plantUmlCode prev) (App.plantUmlCode s))
      eqn:Hce; simpl;
    try apply Bool.eqb_prop in Hse; try apply String.eqb_eq in Hce.
  - constructor; rewrite ?Ht, ?Hi, ?Hv, ?Hl, <- ?Hse, <- ?Hce; assumption.
  - apply Consistent_codeEffect.
    constructor; simpl; rewrite ?Hi, ?Hv, ?Hl, <- ?Hse; try assumption.
    discriminate.
  - apply Consistent_streamingEffect.
    constructor; simpl; rewrite ?Ht, ?Hv, ?Hl, <- ?Hce; try assumption.
    done.
  - apply Consistent_codeEffect, Consistent_streamingEffect.
    constructor; simpl; rewrite ?Hv, ?Hl; try assumption;
      [done | discriminate].
Qed.

Lemma Consistent_step (s : App.AppState) (e : App.Event) :
  App.Consistent s → App.Consistent (App.step s e).
Proof.
  intros Hs. destruct e as [newCode | a | a | p r | ms]; simpl.
  - by apply Consistent_commit.
  - by apply Consistent_commit.
  - unfold App.ontoolinputpartial.
    destruct a as [partialCode|]; [|done].
    destruct (Js.truthy partialCode); [|done].
    by apply Consistent_commit.
  - by apply Consistent_resume.
  - by apply Consistent_elapse.
Qed.

Lemma Consistent_mount (mcpApp : SyncLayer.McpApp) :
  App.Consistent (App.mount mcpApp).
Proof.
  unfold App.mount.
  apply Consistent_codeEffect, Consistent_streamingEffect.
  constructor; simpl; try done.
  intros p Hp. by apply elem_of_nil in Hp.
Qed.

Lemma Consistent_run (es : list App.Event) (s : App.AppState) :
  App.Consistent s → App.Consistent (App.run es s).
Proof.
  revert s. induction es as [|e es IH]; intros s Hs; [done|].
  simpl. by apply IH, Consistent_step.
Qed.

(** The versions of the calls are distinct: a call has the current version
    exactly when it is the last one. *)
Lemma Consistent_current_last (s : App.AppState) (i : nat)
    (p : App.Pending) :
  App.Consistent s →
  App.renderCalls s !! i = Some p →
  App.p_version p = S i ∧
  (App.p_version p = App.renderVersion s ↔
   S i = length (App.renderCalls s)).
Proof.
  intros [H1 H2 _ _ _] Hp.
  assert (App.p_version p = S i) as Hv.
  { assert ((App.p_version <$> App.renderCalls s) !! i
            = Some (App.p_version p)) as Hi
      by (by rewrite list_lookup_fmap, Hp).
    rewrite H1 in Hi. apply lookup_seq in Hi. lia. }
  split; [done|]. rewrite Hv, H2. done.
Qed.

(** X19: along every trace of events from the mount, only the response to the
    most recent call of [doRender] can change what is shown: the response
    to any earlier call leaves the whole state as it is, whatever it is. *)
Theorem only_latest_render_applies (mcpApp : SyncLayer.McpApp)
    (es : list App.Event) (i : nat) (p : App.Pending)
    (r : App.RenderResult) :
  let s := App.run es (App.mount mcpApp) in
  App.renderCalls s !! i = Some p →
  S i ≠ length (App.renderCalls s) →
  App.doRender_resume p r s = s.
Proof.
  intros s Hp Hi.
  assert (App.Consistent s) as Hs by apply Consistent_run, Consistent_mount.
  destruct (Consistent_current_last s i p Hs Hp) as [_ Hiff].
  apply resume_stale. intros Hv. by apply Hi, Hiff.
Qed.

Lemma only_latest_render_applies_witness :
  let s :=
    App.run [App.Elapse 800; App.CodeChange "A -> B"; App.Elapse 800]
      (App.mount (SyncLayer.mkMcpApp (fun _ => None))) in
  let p := App.mkPending 1 App.SAMPLE_PLANTUML App.SAMPLE_PLANTUML false in
  App.renderCalls s !! 0 = Some p
  ∧ 1 ≠ length (App.renderCalls s)
  ∧ App.doRender_resume p (App.Svg "<svg/>") s = s.
Proof.
  split; [vm_compute; reflexivity|].
  split; [vm_compute; lia|].
  apply (only_latest_render_applies (SyncLayer.mkMcpApp (fun _ => None))
           [App.Elapse 800; App.CodeChange "A -> B"; App.Elapse 800] 0);
    [vm_compute; reflexivity | vm_compute; lia].
Defined.

(** X20: the scheduler never asks the engine to render a blank text: along
    every trace each call of [doRender] hands [renderPlantUml] a text that
    passes its emptiness test, so that exactly one request goes to the
    server. *)
Theorem scheduler_never_renders_blank (mcpApp : SyncLayer.McpApp)
    (es : list App.Event) (p : App.Pending)
    (encode : string → string) (fetch : string → Render.FetchOutcome) :
  p ∈ App.renderCalls (App.run es (App.mount mcpApp)) →
  Js.trim (App.p_renderCode p) ≠ ""
  ∧ (Render.renderPlantUml encode fetch (App.p_renderCode p)).1
    = [Render.getSvgUrl encode (App.p_renderCode p)].
Proof.
  intros Hp.
  assert (App.Consistent (App.run es (App.mount mcpApp))) as Hs
    by apply Consistent_run, Consistent_mount.
  pose proof (App.calls_not_blank _ Hs p Hp) as Hnb.
  split; [done|].
  unfold Render.renderPlantUml, Render.getSvgUrl.
  rewrite (proj2 (truthy_true_iff _) Hnb). simpl.
  destruct (fetch _) as [resp|m]; [|done].
  by destruct (Render.ok resp).
Qed.

Lemma scheduler_never_renders_blank_witness :
  let p := App.mkPending 1 "A -> B" "A -> B" false in
  let encode := fun s : string => s in
  let fetch := fun _ : string => Render.NetworkError "offline" in
  p ∈ App.renderCalls
        (App.run [App.CodeChange "A -> B"; App.Elapse 800]
           (App.mount (SyncLayer.mkMcpApp (fun _ => None))))
  ∧ Js.trim (App.p_renderCode p) ≠ ""
  ∧ (Render.renderPlantUml encode fetch (App.p_renderCode p)).1
    = [Render.getSvgUrl encode (App.p_renderCode p)].
Proof.
  assert (App.mkPending 1 "A -> B" "A -> B" false
          ∈ App.renderCalls
              (App.run [App.CodeChange "A -> B"; App.Elapse 800]
                 (App.mount (SyncLayer.mkMcpApp (fun _ => None))))) as Hin.
  { vm_compute. apply list_elem_of_here. }
  split; [exact Hin|].
  exact (scheduler_never_renders_blank (SyncLayer.mkMcpApp (fun _ => None))
           [App.CodeChange "A -> B"; App.Elapse 800]
           (App.mkPending 1 "A -> B" "A -> B" false)
           (fun s : string => s)
           (fun _ : string => Render.NetworkError "offline") Hin).
Defined.

(** X21: along every trace a pending debounce timer carries the text that is
    current, never an older one, and that text is not blank. *)
Theorem pending_debounce_carries_current_text (mcpApp : SyncLayer.McpApp)
    (es : list App.Event) (due : nat) (code : string) :
  let s := App.run es (App.mount mcpApp) in
  App.renderTimer s = Some (due, code) →
  code = App.plantUmlCode s ∧ Js.trim code ≠ "".
Proof.
  intros s Ht.
  assert (App.Consistent s) as Hs by apply Consistent_run, Consistent_mount.
  exact (App.debounce_current _ Hs _ _ Ht).
Qed.

Lemma pending_debounce_carries_current_text_witness :
  let s :=
    App.run [App.CodeChange "A -> B"; App.Elapse 300]
      (App.mount (SyncLayer.mkMcpApp (fun _ => None))) in
  App.renderTimer s = Some (800, "A -> B")
  ∧ "A -> B" = App.plantUmlCode s ∧ Js.trim "A -> B" ≠ "".
Proof.
  split; [vm_compute; reflexivity|].
  apply (pending_debounce_carries_current_text
           (SyncLayer.mkMcpApp (fun _ => None))
           [App.CodeChange "A -> B"; App.Elapse 300] 800 "A -> B").
  vm_compute; reflexivity.
Defined.

(** X22: along every trace the streaming interval is running exactly while
    the streaming flag is set. *)
Theorem interval_runs_iff_streaming (mcpApp : SyncLayer.McpApp)
    (es : list App.Event) :
  let s := App.run es (App.mount mcpApp) in
  App.streamingRenderTimer s = None ↔ App.streaming s = false.
Proof.
  intros s.
  assert (App.Consistent s) as Hs by apply Consistent_run, Consistent_mount.
  exact (App.interval_iff_streaming _ Hs).
Qed.

(** ** Streaming *)

(** X23: a partial tool input with a text sets the streaming flag.  The first
    one of a stream issues at once a streaming render of its text, which
    does not show the loading state, and starts the interval, due 2000 ms
    later; the following ones issue no render of their own and leave the
    interval as it is. *)
Theorem partial_input_starts_streaming_render (partialCode : string)
    (s : App.AppState) :
  Js.truthy partialCode = true →
  let s' := App.ontoolinputpartial (Some partialCode) s in
  App.streaming s' = true
  ∧ App.plantUmlCode s' = partialCode
  ∧ App.renderLoading s' = App.renderLoading s
  ∧ App.renderCalls s'
    = App.renderCalls s
      ++ (if App.streaming s then []
          else [App.mkPending (S (App.renderVersion s)) partialCode
                  (App.repairStreaming partialCode) true])
  ∧ App.streamingRenderTimer s'
    = (if App.streaming s then App.streamingRenderTimer s
       else Some (App.now s + 2000)).
Proof.
  intros Htr s'. subst s'. unfold App.ontoolinputpartial. rewrite Htr.
  unfold App.commit. simpl.
  destruct (App.streaming s) eqn:Hst; simpl.
  - rewrite app_nil_r.
    destruct (String.eqb (App.plantUmlCode s) partialCode); simpl;
      unfold App.codeEffect, App.scheduleRender; simpl;
      destruct (Js.truthy (Js.trim partialCode)); done.
  - unfold App.streamingEffect. simpl.
    destruct (String.eqb (App.plantUmlCode s) partialCode); simpl;
      unfold App.codeEffect, App.scheduleRender; simpl;
      destruct (Js.truthy (Js.trim partialCode)); done.
Qed.

Lemma partial_input_starts_streaming_render_witness :
  let s := App.mount (SyncLayer.mkMcpApp (fun _ => None)) in
  let s' := App.ontoolinputpartial (Some "@startuml") s in
  Js.truthy "@startuml" = true
  ∧ App.streaming s' = true
  ∧ App.plantUmlCode s' = "@startuml"
  ∧ App.renderLoading s' = App.renderLoading s
  ∧ App.renderCalls s'
    = App.renderCalls s
      ++ (if App.streaming s then []
          else [App.mkPending (S (App.renderVersion s)) "@startuml"
                  (App.repairStreaming "@startuml") true])
  ∧ App.streamingRenderTimer s'
    = (if App.streaming s then App.streamingRenderTimer s
       else Some (App.now s + 2000)).
Proof.
  split; [reflexivity|].
  apply (partial_input_starts_streaming_render "@startuml"
           (App.mount (SyncLayer.mkMcpApp (fun _ => None)))).
  reflexivity.
Defined.

Lemma renderSide_elapse_idle (ms : nat) (s : App.AppState) :
  match App.renderTimer s with
  | Some (due, _) => App.now s + ms < due
  | None => True
  end →
  match App.streamingRenderTimer s with
  | Some due => App.now s + ms < due
  | None => True
  end →
  App.renderSide (App.elapse ms s) = App.renderSide s.
Proof.
  intros Hdue Hint. induction ms as [|ms IH]; [done|].
  rewrite elapse_succ.
  assert (App.renderSide (App.elapse ms s) = App.renderSide s) as Hs.
  { apply IH.
    - destruct (App.renderTimer s) as [[due c]|]; [lia|done].
    - destruct (App.streamingRenderTimer s) as [due|]; [lia|done]. }
  rewrite <- Hs. unfold App.renderSide in Hs.
  injection Hs as _ _ Ht Hi _ _.
  apply renderSide_tick_idle; rewrite ?Ht, ?Hi, now_elapse.
  - destruct (App.renderTimer s) as [[due c]|]; [lia|done].
  - destruct (App.streamingRenderTimer s) as [due|]; [lia|done].
Qed.

(** The tick at which the interval is due issues a streaming render of
    the current text and moves the interval on by 2000 ms; a debounce timer
    due at that tick fires after it. *)
Lemma renderSide_tick_interval (s : App.AppState) (due : nat) :
  App.streamingRenderTimer s = Some due →
  due ≤ S (App.now s) →
  let streamed :=
    App.mkPending (S (App.renderVersion s)) (App.plantUmlCode s)
      (App.repairStreaming (App.plantUmlCode s)) true in
  App.renderSide (App.tick s)
  = match App.renderTimer s with
    | Some (d, c) =>
        if d <=? S (App.now s) then
          (App.plantUmlCode s, App.streaming s, None, Some (due + 2000),
           S (S (App.renderVersion s)),
           (App.renderCalls s ++ [streamed])
           ++ [App.mkPending (S (S (App.renderVersion s))) c c false])
        else
          (App.plantUmlCode s, App.streaming s, Some (d, c),
           Some (due + 2000), S (App.renderVersion s),
           App.renderCalls s ++ [streamed])
    | None =>
        (App.plantUmlCode s, App.streaming s, None, Some (due + 2000),
         S (App.renderVersion s), App.renderCalls s ++ [streamed])
    end.
Proof.
  intros Hi Hle streamed. unfold App.tick.
  destruct (renderSide_tick_start s) as [Hside Hnow].
  set (t := App.fireErrorFixTimer (App.set_now (S (App.now s)) s)) in *.
  assert (App.renderSide (App.fireStreamingInterval t)
          = (App.plantUmlCode s, App.streaming s, App.renderTimer s,
             Some (due + 2000), S (App.renderVersion s),
             App.renderCalls s ++ [streamed])) as Hu.
  { rewrite renderSide_fireStreamingInterval, Hnow.
    unfold App.renderSide in Hside. injection Hside as -> -> -> -> -> ->.
    by rewrite Hi, (proj2 (Nat.leb_le _ _) Hle). }
  rewrite renderSide_fireRenderTimer, now_fireStreamingInterval, Hnow, Hu.
  unfold App.renderSide in Hu. injection Hu as -> -> -> -> -> ->.
  destruct (App.renderTimer s) as [[d c]|]; [|done].
  by destruct (d <=? S (App.now s)).
Qed.

(** X24: while nothing else happens and no debounce timer is due before it,
    the streaming interval issues, at its due time, one streaming render of
    the text that is current then, and is due again 2000 ms later.  A
    debounce timer due at that same time fires after the interval and
    issues its render second. *)
Theorem streaming_interval_renders_current_text (s : App.AppState)
    (due : nat) :
  App.streamingRenderTimer s = Some due →
  App.now s < due →
  match App.renderTimer s with
  | Some (d, _) => due ≤ d
  | None => True
  end →
  let s' := App.elapse (due - App.now s) s in
  let streamed :=
    App.mkPending (S (App.renderVersion s)) (App.plantUmlCode s)
      (App.repairStreaming (App.plantUmlCode s)) true in
  App.renderCalls s'
  = (App.renderCalls s ++ [streamed])
    ++ match App.renderTimer s with
       | Some (d, c) =>
           if d =? due
           then [App.mkPending (S (S (App.renderVersion s))) c c false]
           else []
       | None => []
       end
  ∧ App.streamingRenderTimer s' = Some (due + 2000).
Proof.
  intros Hi Hlt Hdue s' streamed. subst s'.
  assert (due - App.now s = S (due - S (App.now s))) as -> by lia.
  rewrite elapse_succ.
  set (k := due - S (App.now s)).
  assert (App.renderSide (App.elapse k s) = App.renderSide s) as Hq.
  { apply renderSide_elapse_idle.
    - destruct (App.renderTimer s) as [[d c]|]; [lia|done].
    - rewrite Hi. lia. }
  pose proof (renderSide_tick_interval (App.elapse k s) due) as Hfire.
  unfold App.renderSide in Hq. injection Hq as Hc Hs Ht Hi' Hv Hl.
  rewrite Hc, Hs, Ht, Hv, Hl, now_elapse in Hfire.
  specialize (Hfire ltac:(by rewrite Hi') ltac:(lia)).
  cbv zeta in Hfire. fold streamed in Hfire.
  assert (S (App.now s + k) = due) as Hk by lia.
  rewrite Hk in Hfire.
  unfold App.renderSide in Hfire.
  destruct (App.renderTimer s) as [[d c]|].
  - destruct (d <=? due) eqn:Hd.
    + apply Nat.leb_le in Hd.
      assert ((d =? due) = true) as -> by (apply Nat.eqb_eq; lia).
      injection Hfire as _ _ _ Hi2 _ Hl2. by split.
    + apply Nat.leb_gt in Hd.
      assert ((d =? due) = false) as -> by (apply Nat.eqb_neq; lia).
      injection Hfire as _ _ _ Hi2 _ Hl2. rewrite app_nil_r. by split.
  - injection Hfire as _ _ _ Hi2 _ Hl2. rewrite app_nil_r. by split.
Qed.

Lemma streaming_interval_renders_current_text_witness :
  let s :=
    App.elapse 1200
      (App.ontoolinputpartial (Some "@startuml")
         (App.elapse 1000
            (App.mount (SyncLayer.mkMcpApp (fun _ => None))))) in
  let s0 := App.ontoolinputpartial (Some "A -> B") s in
  let s' := App.elapse (3000 - App.now s0) s0 in
  App.streamingRenderTimer s0 = Some 3000
  ∧ App.now s0 < 3000
  ∧ App.renderTimer s0 = Some (3000, "A -> B")
  ∧ App.renderCalls s'
    = (App.renderCalls s0
       ++ [App.mkPending (S (App.renderVersion s0)) "A -> B"
             (App.repairStreaming "A -> B") true])
      ++ [App.mkPending (S (S (App.renderVersion s0))) "A -> B" "A -> B"
            false]
  ∧ App.streamingRenderTimer s' = Some (3000 + 2000).
Proof.
  split; [vm_compute; reflexivity|].
  split; [vm_compute; lia|].
  split; [vm_compute; reflexivity|].
  apply (streaming_interval_renders_current_text
           (App.ontoolinputpartial (Some "A -> B")
              (App.elapse 1200
                 (App.ontoolinputpartial (Some "@startuml")
                    (App.elapse 1000
                       (App.mount (SyncLayer.mkMcpApp (fun _ => None)))))))
           3000);
    [vm_compute; reflexivity | vm_compute; lia | vm_compute; lia].
Defined.

(** X25: the final tool input ends the stream, whatever its text: the flag
    is reset, the interval is cancelled, the change log is emptied, the
    counter is zeroed and the document is flagged as coming from the
    agent; it issues no render itself.  When its text is the one already
    shown and no debounce timer is pending, no render follows it either,
    however long one waits. *)
Theorem final_input_same_text_issues_no_render
    (mcpApp : SyncLayer.McpApp) (es : list App.Event)
    (plantUmlCodeArg : option string) :
  let s := App.run es (App.mount mcpApp) in
  let s' := App.ontoolinput plantUmlCodeArg s in
  App.streaming s' = false
  ∧ App.streamingRenderTimer s' = None
  ∧ App.changeLog s' = []
  ∧ App.changeCount s' = 0
  ∧ App.isToolInputError s' = true
  ∧ App.plantUmlCode s' = default "" plantUmlCodeArg
  ∧ App.renderCalls s' = App.renderCalls s
  ∧ (default "" plantUmlCodeArg = App.plantUmlCode s →
     App.renderTimer s = None →
     ∀ ms, App.renderCalls (App.elapse ms s') = App.renderCalls s).
Proof.
  intros s s'.
  assert (App.Consistent s) as Hs by apply Consistent_run, Consistent_mount.
  assert (App.renderSide s'
          = (default "" plantUmlCodeArg, false,
             (if String.eqb (App.plantUmlCode s) (default "" plantUmlCodeArg)
              then App.renderTimer s
              else if Js.truthy (Js.trim (default "" plantUmlCodeArg))
                   then Some (App.now s + 800, default "" plantUmlCodeArg)
                   else None),
             None, App.renderVersion s, App.renderCalls s)
          ∧ App.changeLog s' = [] ∧ App.changeCount s' = 0
          ∧ App.isToolInputError s' = true) as (Hside & Hl & Hn & Hf).
  { subst s'. unfold App.ontoolinput, App.commit. simpl.
    unfold App.streamingEffect, App.streamingCleanup, App.codeEffect,
      App.codeCleanup, App.scheduleRender, App.renderSide.
    destruct (String.eqb (App.plantUmlCode s) (default "" plantUmlCodeArg));
      destruct (App.streaming s) eqn:Hst; simpl;
      destruct (Js.truthy (Js.trim (default "" plantUmlCodeArg))); simpl;
      rewrite ?(proj2 (App.interval_iff_streaming _ Hs) Hst); done. }
  unfold App.renderSide in Hside.
  injection Hside as Hc Hst Ht Hi Hv Hcalls.
  do 7 (split; [done|]).
  intros Hsame Hnone ms.
  assert (App.renderTimer s' = None) as Ht'.
  { rewrite Ht, Hsame, String.eqb_refl. exact Hnone. }
  assert (App.renderSide (App.elapse ms s') = App.renderSide s') as Hq.
  { apply renderSide_elapse_quiet; [by rewrite Ht' | done]. }
  unfold App.renderSide in Hq. injection Hq as _ _ _ _ _ Hq.
  by rewrite Hq.
Qed.

Lemma final_input_same_text_issues_no_render_witness :
  let s :=
    App.run [App.ToolInputPartial (Some "A -> B"); App.Elapse 900]
      (App.mount (SyncLayer.mkMcpApp (fun _ => None))) in
  let s' := App.ontoolinput (Some "A -> B") s in
  default "" (Some "A -> B") = App.plantUmlCode s
  ∧ App.renderTimer s = None
  ∧ App.streaming s = true
  ∧ App.streaming s' = false
  ∧ App.renderCalls (App.elapse 5000 s') = App.renderCalls s.
Proof.
  do 3 (split; [vm_compute; reflexivity|]).
  destruct (final_input_same_text_issues_no_render
              (SyncLayer.mkMcpApp (fun _ => None))
              [App.ToolInputPartial (Some "A -> B"); App.Elapse 900]
              (Some "A -> B")) as (H1 & _ & _ & _ & _ & _ & _ & H8).
  split; [exact H1|].
  apply H8; vm_compute; reflexivity.
Defined.

(** ** Responses *)

(** X26: a render that fails (the promise of [renderPlantUml] is rejected:
    empty text, network failure, error status) never replaces the diagram
    shown, never schedules an auto-fix request and never resets the record
    of the last request; only a current call that is not a streaming one
    shows the message and ends the loading state. *)
Theorem rejected_render_keeps_diagram (p : App.Pending) (msg : string)
    (s : App.AppState) :
  let s' := App.doRender_resume p (App.resultOf (Render.Rejected msg)) s in
  App.svgContent s' = App.svgContent s
  ∧ App.errorFixTimer s' = App.errorFixTimer s
  ∧ App.errorAlreadySent s' = App.errorAlreadySent s
  ∧ App.renderError s'
    = (if (App.p_version p =? App.renderVersion s)
          && negb (App.p_isStreaming p)
       then Some msg else App.renderError s)
  ∧ App.renderLoading s'
    = (if (App.p_version p =? App.renderVersion s)
          && negb (App.p_isStreaming p)
       then false else App.renderLoading s).
Proof.
  unfold App.doRender_resume. simpl.
  destruct (App.p_version p =? App.renderVersion s) eqn:Hv;
    destruct (App.p_isStreaming p); simpl; rewrite ?Hv; done.
Qed.

(** ** The change counter *)

Lemma logSide_commit (prev s : App.AppState) :
  App.changeLog (App.commit prev s) = App.changeLog s
  ∧ App.changeCount (App.commit prev s) = App.changeCount s.
Proof. unfold_handlers. handler_cases; done. Qed.

Lemma logSide_resume (p : App.Pending) (r : App.RenderResult)
    (s : App.AppState) :
  App.changeLog (App.doRender_resume p r s) = App.changeLog s
  ∧ App.changeCount (App.doRender_resume p r s) = App.changeCount s.
Proof. unfold_handlers. handler_cases; done. Qed.

Lemma logSide_tick (s : App.AppState) :
  App.changeLog (App.tick s) = App.changeLog s
  ∧ App.changeCount (App.tick s) = App.changeCount s.
Proof.
  unfold App.tick.
  assert (∀ t, App.changeLog (App.fireRenderTimer t) = App.changeLog t
               ∧ App.changeCount (App.fireRenderTimer t)
                 = App.changeCount t) as H1
    by (intros t; unfold_handlers; handler_cases; done).
  assert (∀ t, App.changeLog (App.fireErrorFixTimer t) = App.changeLog t
               ∧ App.changeCount (App.fireErrorFixTimer t)
                 = App.changeCount t) as H2
    by (intros t; unfold_handlers; handler_cases; done).
  assert (∀ t, App.changeLog (App.fireStreamingInterval t)
               = App.changeLog t
               ∧ App.changeCount (App.fireStreamingInterval t)
                 = App.changeCount t) as H3
    by (intros t; unfold_handlers; handler_cases; done).
  destruct (H1 (App.fireStreamingInterval
                  (App.fireErrorFixTimer
                     (App.set_now (S (App.now s)) s)))) as [-> ->].
  destruct (H3 (App.fireErrorFixTimer (App.set_now (S (App.now s)) s)))
    as [-> ->].
  destruct (H2 (App.set_now (S (App.now s)) s)) as [-> ->].
  done.
Qed.

Lemma logSide_elapse (ms : nat) (s : App.AppState) :
  App.changeLog (App.elapse ms s) = App.changeLog s
  ∧ App.changeCount (App.elapse ms s) = App.changeCount s.
Proof.
  induction ms as [|ms [IH1 IH2]]; [done|].
  rewrite elapse_succ. destruct (logSide_tick (App.elapse ms s)) as [-> ->].
  done.
Qed.

(** The log of the component holds at most the one entry of the editor,
    and the counter shown is its length. *)
Lemma log_step (s : App.AppState) (e : App.Event) :
  (App.changeLog s = []
   ∨ App.changeLog s = [ChangeLog.Edit "manual code edit"]) →
  App.changeCount s = ChangeLog.count (App.changeLog s) →
  (App.changeLog (App.step s e) = []
   ∨ App.changeLog (App.step s e) = [ChangeLog.Edit "manual code edit"])
  ∧ App.changeCount (App.step s e)
    = ChangeLog.count (App.changeLog (App.step s e)).
Proof.
  intros Hlog Hn. destruct e as [newCode | a | a | p r | ms]; simpl.
  - unfold App.handleCodeChange.
    match goal with
    | |- context [App.commit ?a ?b] =>
        destruct (logSide_commit a b) as [-> ->]
    end.
    simpl. split; [|done]. right. by destruct Hlog as [-> | ->].
  - unfold App.ontoolinput.
    match goal with
    | |- context [App.commit ?a ?b] =>
        destruct (logSide_commit a b) as [-> ->]
    end.
    simpl. split; [by left | done].
  - unfold App.ontoolinputpartial.
    destruct a as [partialCode|]; [|done].
    destruct (Js.truthy partialCode); [|done].
    match goal with
    | |- context [App.commit ?a ?b] =>
        destruct (logSide_commit a b) as [-> ->]
    end.
    done.
  - by destruct (logSide_resume p r s) as [-> ->].
  - by destruct (logSide_elapse ms s) as [-> ->].
Qed.

Lemma log_run (es : list App.Event) (s : App.AppState) :
  (App.changeLog s = []
   ∨ App.changeLog s = [ChangeLog.Edit "manual code edit"]) →
  App.changeCount s = ChangeLog.count (App.changeLog s) →
  (App.changeLog (App.run es s) = []
   ∨ App.changeLog (App.run es s) = [ChangeLog.Edit "manual code edit"])
  ∧ App.changeCount (App.run es s)
    = ChangeLog.count (App.changeLog (App.run es s)).
Proof.
  revert s. induction es as [|e es IH]; intros s H1 H2; [done|].
  simpl. destruct (log_step s e H1 H2) as [G1 G2]. by apply IH.
Qed.

(** X27: the component only ever logs the one entry of the editor, which
    coalesces: along every trace the change log is empty or holds that one
    entry, and the counter shown on the send button is its length, 0 or
    1. *)
Theorem change_counter_is_log_length_at_most_one
    (mcpApp : SyncLayer.McpApp) (es : list App.Event) :
  let s := App.run es (App.mount mcpApp) in
  (App.changeLog s = []
   ∨ App.changeLog s = [ChangeLog.Edit "manual code edit"])
  ∧ App.changeCount s = ChangeLog.count (App.changeLog s)
  ∧ App.changeCount s ≤ 1.
Proof.
  intros s.
  destruct (log_run es (App.mount mcpApp)) as [Hl Hn];
    [by left | done |].
  fold s in Hl, Hn.
  split; [done|]. split; [done|].
  rewrite Hn. destruct Hl as [-> | ->]; simpl; lia.
Qed.

(** X28: the send button zeroes the counter whether or not the host is
    connected.  When it is, one message goes out and the log is emptied,
    also when the host refuses the message; when it is not, nothing is sent
    and the log keeps its entries, so that the counter no longer tells its
    length. *)
Theorem handleSendToAgent_zeroes_counter (app : option SyncLayer.McpApp)
    (s : App.AppState) :
  let s' := App.handleSendToAgent app s in
  App.changeCount s' = 0
  ∧ App.changeLog s'
    = (if app is Some _ then [] else App.changeLog s)
  ∧ length (App.sendMessageCalls s')
    = length (App.sendMessageCalls s) + (if app is Some _ then 1 else 0)
  ∧ App.renderSide s' = App.renderSide s.
Proof.
  unfold App.handleSendToAgent. destruct app as [a|]; simpl.
  - unfold SyncLayer.sendToAgent, mbind, SyncLayer.M_bind, SyncLayer.bind,
      SyncLayer.changeLog_serialize, SyncLayer.tryCatch,
      SyncLayer.app_sendMessage, SyncLayer.changeLog_clear, SyncLayer.ret.
    simpl.
    destruct (SyncLayer.sendMessage a _); simpl;
      rewrite length_app; simpl; done.
  - repeat split; lia.
Qed.

(** ** The detection of the diagram type *)

Lemma trimStart_split (s : string) :
  ∃ ws, s = ws +:+ Js.trimStart s ∧ Js.allWhite ws = true.
Proof.
  induction s as [|c s (ws & Hs & Hws)]; [by exists ""|].
  simpl. destruct (Js.isWhiteSpace c) eqn:Hc.
  - exists (String c ws). rewrite sapp_cons, <- Hs. split; [done|].
    simpl. by rewrite Hc.
  - by exists "".
Qed.

Lemma trimStart_app_white (ws s : string) :
  Js.allWhite ws = true → Js.trimStart (ws +:+ s) = Js.trimStart s.
Proof.
  induction ws as [|c ws IH]; [by rewrite sapp_nil_l|].
  simpl. intros [Hc Hws]%andb_true_iff.
  rewrite Hc. by apply IH.
Qed.

Lemma trimStart_app (p q : string) :
  Js.allWhite p = false → Js.trimStart (p +:+ q) = Js.trimStart p +:+ q.
Proof.
  induction p as [|c p IH]; [done|].
  simpl.
  destruct (Js.isWhiteSpace c); simpl; [exact IH|].
  intros _. by rewrite sapp_cons.
Qed.

Lemma trimEnd_app_white (p ws : string) :
  Js.allWhite ws = true → Js.trimEnd (p +:+ ws) = Js.trimEnd p.
Proof.
  intros Hws. induction p as [|c p IH].
  - rewrite sapp_nil_l. by apply trimEnd_empty_iff.
  - rewrite sapp_cons. simpl. by rewrite IH.
Qed.

Lemma trim_app_white_l (ws s : string) :
  Js.allWhite ws = true → Js.trim (ws +:+ s) = Js.trim s.
Proof. intros Hws. unfold Js.trim. by rewrite trimStart_app_white. Qed.

Lemma trim_app_white_r (s ws : string) :
  Js.allWhite ws = true → Js.trim (s +:+ ws) = Js.trim s.
Proof.
  intros Hws. destruct (Js.allWhite s) eqn:Hs.
  - rewrite (proj2 (trim_empty_iff s) Hs).
    apply trim_empty_iff. by rewrite allWhite_app, Hs, Hws.
  - unfold Js.trim. rewrite (trimStart_app _ _ Hs).
    by apply trimEnd_app_white.
Qed.

(** [split] gives at least one line, and the lines of a concatenation are
    those of its parts with the last and the first glued. *)
Lemma split_snoc (s : string) : ∃ ls x, Detect.split s = ls ++ [x].
Proof.
  induction s as [|c s (ls & x & Hs)]; [by exists [], ""|].
  simpl. destruct (Ascii.eqb c "010"%char).
  - exists ("" :: ls), x. by rewrite Hs.
  - rewrite Hs. destruct ls as [|l ls]; simpl.
    + by exists [], (String c x).
    + by exists (String c l :: ls), x.
Qed.

Lemma split_cons (s : string) : ∃ y ls, Detect.split s = y :: ls.
Proof.
  destruct s as [|c s]; [by exists "", []|].
  simpl. destruct (Ascii.eqb c "010"%char); [by eexists _, _|].
  destruct (Detect.split s); by eexists _, _.
Qed.

Lemma split_app (a b : string) (la lb : list string) (x y : string) :
  Detect.split a = la ++ [x] →
  Detect.split b = y :: lb →
  Detect.split (a +:+ b) = la ++ (x +:+ y) :: lb.
Proof.
  intros Ha Hb. revert la x Ha.
  induction a as [|c a IH]; intros la x Ha.
  - rewrite sapp_nil_l. simpl in Ha.
    destruct la as [|? [|]]; [|done|done].
    injection Ha as <-. by rewrite sapp_nil_l.
  - rewrite sapp_cons. simpl in *.
    destruct (Ascii.eqb c "010"%char).
    + destruct la as [|l la]; simpl in Ha.
      * injection Ha as _ Ha.
        destruct (split_cons a) as (? & ? & H). by rewrite H in Ha.
      * injection Ha as <- Ha. simpl. f_equal. by apply IH.
    + destruct (split_snoc a) as (l0 & x0 & Hsa).
      rewrite (IH _ _ Hsa). rewrite Hsa in Ha.
      destruct l0 as [|l l0]; simpl in *.
      * destruct la as [|? [|]]; [|done|done].
        injection Ha as <-. by rewrite sapp_cons.
      * destruct la as [|l' la]; simpl in Ha.
        { injection Ha as _ Ha. by destruct l0. }
        injection Ha as <- Ha. simpl. f_equal.
        by apply app_inj_tail in Ha as [-> ->].
Qed.

Lemma allWhite_split (ws : string) :
  Js.allWhite ws = true →
  Forall (λ l, Js.allWhite l = true) (Detect.split ws).
Proof.
  induction ws as [|c ws IH]; simpl; [by repeat constructor|].
  intros [Hc Hws]%andb_true_iff. specialize (IH Hws).
  destruct (Ascii.eqb c "010"%char); [by constructor|].
  destruct (Detect.split ws) as [|l ls]; simpl.
  - repeat constructor. simpl. by rewrite Hc.
  - inversion IH; subst. constructor; [|done]. simpl. by rewrite Hc.
Qed.

Lemma skipped_blank (l : string) :
  Js.allWhite l = true → Detect.skipped (Js.trim l) = true.
Proof. intros H. by rewrite (proj2 (trim_empty_iff l) H). Qed.

Lemma detectLines_blank (ls : list string) :
  Forall (λ l, Js.allWhite l = true) ls → Detect.detectLines ls = "unknown".
Proof.
  induction 1 as [|l ls Hl _ IH]; [done|].
  simpl. by rewrite (skipped_blank _ Hl).
Qed.

Lemma detectLines_blank_prefix (la rest : list string) :
  Forall (λ l, Js.allWhite l = true) la →
  Detect.detectLines (la ++ rest) = Detect.detectLines rest.
Proof.
  induction 1 as [|l ls Hl _ IH]; [done|].
  simpl. by rewrite (skipped_blank _ Hl).
Qed.

Lemma detectLines_blank_suffix (la lb : list string) (x y : string) :
  Js.allWhite y = true →
  Forall (λ l, Js.allWhite l = true) lb →
  Detect.detectLines (la ++ (x +:+ y) :: lb)
  = Detect.detectLines (la ++ [x]).
Proof.
  intros Hy Hlb. induction la as [|l la IH]; simpl.
  - rewrite (trim_app_white_r _ _ Hy), (detectLines_blank _ Hlb).
    by destruct (Detect.skipped (Js.trim x)).
  - by rewrite IH.
Qed.

Lemma detectLines_white_l (ws s : string) :
  Js.allWhite ws = true →
  Detect.detectLines (Detect.split (ws +:+ s))
  = Detect.detectLines (Detect.split s).
Proof.
  intros Hws.
  destruct (split_snoc ws) as (la & x & Ha).
  destruct (split_cons s) as (y & lb & Hb).
  rewrite (split_app _ _ _ _ _ _ Ha Hb), Hb.
  pose proof (allWhite_split _ Hws) as Hall. rewrite Ha in Hall.
  apply Forall_app in Hall as [Hla Hx].
  inversion Hx as [|? ? Hx' _]; subst.
  rewrite (detectLines_blank_prefix _ _ Hla). simpl.
  by rewrite (trim_app_white_l _ _ Hx').
Qed.

Lemma detectLines_white_r (s ws : string) :
  Js.allWhite ws = true →
  Detect.detectLines (Detect.split (s +:+ ws))
  = Detect.detectLines (Detect.split s).
Proof.
  intros Hws.
  destruct (split_snoc s) as (la & x & Ha).
  destruct (split_cons ws) as (y & lb & Hb).
  rewrite (split_app _ _ _ _ _ _ Ha Hb), Ha.
  pose proof (allWhite_split _ Hws) as Hall. rewrite Hb in Hall.
  inversion Hall; subst.
  by apply detectLines_blank_suffix.
Qed.

Lemma detectLines_find (ls : list string) :
  Detect.detectLines ls
  = match find (λ line, negb (Detect.skipped (Js.trim line))) ls with
    | Some line => default "unknown" (Detect.classify (Js.trim line))
    | None => "unknown"
    end.
Proof.
  induction ls as [|l ls IH]; [done|].
  simpl. by destruct (Detect.skipped (Js.trim l)).
Qed.

(** X29: the answer is read off the first line of the text that, trimmed, is
    not empty, not a comment and does not begin with [@startuml]: the tests
    are applied to that line alone, and a line that passes none of them
    makes the answer "unknown" whatever follows.  The trimming and the
    emptiness test of the whole text change nothing. *)
Theorem detectDiagramType_first_significant_line (code : string) :
  Detect.detectDiagramType code
  = match
      find (λ line, negb (Detect.skipped (Js.trim line)))
        (Detect.split code)
    with
    | Some line => default "unknown" (Detect.classify (Js.trim line))
    | None => "unknown"
    end.
Proof.
  rewrite <- detectLines_find. unfold Detect.detectDiagramType.
  destruct (Js.truthy (Js.trim code)) eqn:Htr; simpl.
  - destruct (trimStart_split code) as (ws1 & H1 & Hw1).
    destruct (trimEnd_split (Js.trimStart code)) as (ws2 & H2 & Hw2).
    fold (Js.trim code) in H2.
    rewrite <- (detectLines_white_r (Js.trim code) ws2 Hw2), <- H2.
    by rewrite <- (detectLines_white_l ws1 (Js.trimStart code) Hw1), <- H1.
  - apply truthy_false_iff, trim_empty_iff in Htr.
    symmetry. by apply detectLines_blank, allWhite_split.
Qed.

Lemma classify_in_types (l t : string) :
  Detect.classify l = Some t → t ∈ Detect.DIAGRAM_TYPES.
Proof.
  unfold Detect.classify, Detect.DIAGRAM_TYPES.
  repeat match goal with
         | |- context [if ?b then _ else _] => destruct b
         end;
    intros Heq; try discriminate Heq;
    apply (inj Some) in Heq; subst t;
    repeat first [apply list_elem_of_here | apply list_elem_of_further].
Qed.

(** X30: whatever the text, the answer is one of the twenty type names,
    "unknown" included. *)
Theorem detectDiagramType_in_types (code : string) :
  Detect.detectDiagramType code ∈ Detect.DIAGRAM_TYPES.
Proof.
  unfold Detect.detectDiagramType.
  destruct (negb (Js.truthy (Js.trim code))).
  { unfold Detect.DIAGRAM_TYPES.
    repeat first [apply list_elem_of_here | apply list_elem_of_further]. }
  induction (Detect.split (Js.trim code)) as [|l ls IH]; simpl.
  { unfold Detect.DIAGRAM_TYPES.
    repeat first [apply list_elem_of_here | apply list_elem_of_further]. }
  destruct (Detect.skipped (Js.trim l)); [done|].
  destruct (Detect.classify (Js.trim l)) as [t|] eqn:Hc; simpl.
  - by eapply classify_in_types.
  - unfold Detect.DIAGRAM_TYPES.
    repeat first [apply list_elem_of_here | apply list_elem_of_further].
Qed.
